(** * PegInsertionSide-v1: geometry, success predicate and dense reward

    A shallow embedding of [mani_skill/envs/tasks/tabletop/peg_insertion_side.py].

    The environment works on batched float tensors, one row per parallel
    environment, and every operation of the task is applied row by row.  A row
    is modelled by the record [Instance]; numbers are modelled by the real
    numbers [R], so rounding of the float32/float64 arithmetic is outside the
    model.  Comparisons are the decidable ones of [R] turned into [bool]. *)

From Stdlib Require Import Reals Lra Lia List Bool ZArith.
From Stdlib Require Strings.String Strings.Ascii.
Import ListNotations.
Import Stdlib.Strings.String.StringSyntax Stdlib.Strings.Ascii.AsciiSyntax.
Delimit Scope string_scope with string.
Delimit Scope char_scope with char.

Local Open Scope R_scope.

(** ** Numeric helpers *)

(** [a <= b] on tensors yields a boolean tensor; one entry of it. *)
Definition Rleb (a b : R) : bool := if Rle_dec a b then true else false.

(** [a < b], one entry. *)
Definition Rltb (a b : R) : bool := if Rlt_dec a b then true else false.

(** Multiplying a float tensor by a boolean tensor casts [True] to 1 and
    [False] to 0. *)
Definition b2r (b : bool) : R := if b then 1 else 0.

(** ** Vectors and quaternions *)

Record vec3 : Type := mkV { vx : R; vy : R; vz : R }.

Definition vadd (a b : vec3) : vec3 :=
  mkV (vx a + vx b) (vy a + vy b) (vz a + vz b).

Definition vsub (a b : vec3) : vec3 :=
  mkV (vx a - vx b) (vy a - vy b) (vz a - vz b).

Definition vneg (a : vec3) : vec3 := mkV (- vx a) (- vy a) (- vz a).

Definition vscale (c : R) (a : vec3) : vec3 :=
  mkV (c * vx a) (c * vy a) (c * vz a).

(** [torch.linalg.norm(v, axis=1)] on a row of three components. *)
Definition norm3 (a : vec3) : R := sqrt (vx a * vx a + vy a * vy a + vz a * vz a).

(** [torch.linalg.norm(v[:, 1:], axis=1)]: the norm of the y and z components. *)
Definition norm_yz (a : vec3) : R := sqrt (vy a * vy a + vz a * vz a).

(** Modelled from the spec: the quaternion routines behind [Pose]
    ([rotation_conversions] of [mani_skill.utils.geometry]) are not among the
    sources.  The spec asks for rotations that compose associatively; they
    are modelled by quaternions in the (w, x, y, z) order of the simulator,
    with the Hamilton product. *)
Record quat : Type := mkQ { qw : R; qx : R; qy : R; qz : R }.

Definition qid : quat := mkQ 1 0 0 0.

Definition qmul (a b : quat) : quat :=
  mkQ (qw a * qw b - qx a * qx b - qy a * qy b - qz a * qz b)
      (qw a * qx b + qx a * qw b + qy a * qz b - qz a * qy b)
      (qw a * qy b - qx a * qz b + qy a * qw b + qz a * qx b)
      (qw a * qz b + qx a * qy b - qy a * qx b + qz a * qw b).

Definition qconj (a : quat) : quat := mkQ (qw a) (- qx a) (- qy a) (- qz a).

Definition qnorm2 (a : quat) : R :=
  qw a * qw a + qx a * qx a + qy a * qy a + qz a * qz a.

Definition qvec (a : quat) : vec3 := mkV (qx a) (qy a) (qz a).

Definition qpure (v : vec3) : quat := mkQ 0 (vx v) (vy v) (vz v).

(** Rotating a point by a quaternion: the vector part of [q * (0, v) * conj q]. *)
Definition quaternion_apply (a : quat) (v : vec3) : vec3 :=
  qvec (qmul (qmul a (qpure v)) (qconj a)).

(** ** Rigid transforms *)

Module Pose.

(** Modelled from the spec: the class [Pose] of [mani_skill.utils.structs]
    (and [sapien.Pose]) is not among the sources.  The spec describes it as
    a rigid transform, a rotation and a translation, with a composition
    [A * B] and an inverse [A.inv()]; the position is [p] and the rotation
    the quaternion [q].  Composition places [B] in the frame of [A]. *)
Record t : Type := mk { p : vec3; q : quat }.

(** [sapien.Pose(p)] and [Pose.create_from_pq(p=p)]: identity rotation. *)
Definition create_from_p (v : vec3) : t := mk v qid.

Definition create_from_pq (v : vec3) (r : quat) : t := mk v r.

Definition identity : t := create_from_p (mkV 0 0 0).

(** Modelled from the spec: [a * b], the pose of [b] placed in the frame of
    [a]; rotations multiply and the position of [b] is rotated by [a]. *)
Definition mul (a b : t) : t :=
  mk (vadd (p a) (quaternion_apply (q a) (p b))) (qmul (q a) (q b)).

(** Modelled from the spec: [a.inv()], the conjugate rotation and the
    position that takes [a] back to the origin. *)
Definition inv (a : t) : t :=
  mk (quaternion_apply (qconj (q a)) (vneg (p a))) (qconj (q a)).

End Pose.

Declare Scope pose_scope.
Delimit Scope pose_scope with pose.
Bind Scope pose_scope with Pose.t.
Infix "∘" := Pose.mul (at level 40, left associativity) : pose_scope.

(** ** The box with a hole *)

(** A box primitive: its centre in the actor frame (the shapes are added with
    [sapien.Pose(p)], identity rotation) and its half sizes. *)
Record BoxShape : Type := mkBox { shape_pose : vec3; half_size : vec3 }.

(** What the task adds to an actor builder: box colliders, and box visuals
    with the hex colour of their material. *)
Record ActorBuilder : Type := mkBuilder {
  collisions : list BoxShape;
  visuals : list (BoxShape * Z)
}.

Definition create_actor_builder : ActorBuilder := mkBuilder [] [].

Definition add_box_collision (pose hs : vec3) (b : ActorBuilder) : ActorBuilder :=
  mkBuilder (collisions b ++ [mkBox pose hs]) (visuals b).

Definition add_box_visual (pose hs : vec3) (color : Z) (b : ActorBuilder)
  : ActorBuilder :=
  mkBuilder (collisions b) (visuals b ++ [(mkBox pose hs, color)]).

(** The colours [#FFD289], [#EC7357] and [#EDF6F9]. *)
Definition color_box : Z := 0xFFD289%Z.
Definition color_peg_head : Z := 0xEC7357%Z.
Definition color_peg_tail : Z := 0xEDF6F9%Z.

(** [thickness = (outer_radius - inner_radius) * 0.5] *)
Definition box_thickness (inner_radius outer_radius : R) : R :=
  (outer_radius - inner_radius) * 0.5.

(** The list [half_sizes] of [_build_box_with_hole]. *)
Definition box_half_sizes (inner_radius outer_radius depth : R) (center : R * R)
  : list vec3 :=
  let thickness := box_thickness inner_radius outer_radius in
  let half_center := (fst center * 0.5, snd center * 0.5) in
  [ mkV depth (thickness - fst half_center) outer_radius;
    mkV depth (thickness + fst half_center) outer_radius;
    mkV depth outer_radius (thickness - snd half_center);
    mkV depth outer_radius (thickness + snd half_center) ].

(** The list [poses] of [_build_box_with_hole]. *)
Definition box_poses (inner_radius outer_radius : R) (center : R * R) : list vec3 :=
  let thickness := box_thickness inner_radius outer_radius in
  let half_center := (fst center * 0.5, snd center * 0.5) in
  let offset := thickness + inner_radius in
  [ mkV 0 (offset + fst half_center) 0;
    mkV 0 (- offset + fst half_center) 0;
    mkV 0 0 (offset + snd half_center);
    mkV 0 0 (- offset + snd half_center) ].

(** [_build_box_with_hole(scene, inner_radius, outer_radius, depth, center)]:
    the loop over [zip(half_sizes, poses)] adds one collider and one visual
    per pair. *)
Definition _build_box_with_hole (inner_radius outer_radius depth : R)
    (center : R * R) : ActorBuilder :=
  fold_left
    (fun builder hp =>
       add_box_visual (snd hp) (fst hp) color_box
         (add_box_collision (snd hp) (fst hp) builder))
    (combine (box_half_sizes inner_radius outer_radius depth center)
             (box_poses inner_radius outer_radius center))
    create_actor_builder.

(** The solid occupied by a box primitive. *)
Definition in_box (b : BoxShape) (pt : vec3) : Prop :=
  Rabs (vx pt - vx (shape_pose b)) <= vx (half_size b) /\
  Rabs (vy pt - vy (shape_pose b)) <= vy (half_size b) /\
  Rabs (vz pt - vz (shape_pose b)) <= vz (half_size b).

(** The union of the colliders of a builder. *)
Definition in_collision (b : ActorBuilder) (pt : vec3) : Prop :=
  Exists (fun s => in_box s pt) (collisions b).

(** The square frame the spec describes: the slab [|x| <= depth] of the
    square [[-outer, outer]] in y and z, without the open rectangle of half
    extent [inner] around [center]; the hole runs along x. *)
Definition in_hole (inner : R) (center : R * R) (pt : vec3) : Prop :=
  fst center - inner < vy pt < fst center + inner /\
  snd center - inner < vz pt < snd center + inner.

Definition in_frame (inner outer depth : R) (center : R * R) (pt : vec3) : Prop :=
  Rabs (vx pt) <= depth /\ Rabs (vy pt) <= outer /\ Rabs (vz pt) <= outer /\
  ~ in_hole inner center pt.

(** ** Randomised geometry: [_load_scene] *)

(** [_clearance = 0.003] *)
Definition _clearance : R := 0.003.

(** One row of the draws made by [_load_scene]:
    [lengths[i]] from [uniform(0.085, 0.125)], [radii[i]] from
    [uniform(0.015, 0.025)] and the two values of [uniform(-1, 1, size=(2,))]. *)
Record GeometrySample : Type := mkSample {
  sample_length : R;
  sample_radius : R;
  sample_center : R * R
}.

Definition valid_sample (s : GeometrySample) : Prop :=
  0.085 <= sample_length s <= 0.125 /\
  0.015 <= sample_radius s <= 0.025 /\
  -1 <= fst (sample_center s) <= 1 /\ -1 <= snd (sample_center s) <= 1.

(** [centers = 0.5 * (lengths - radii)[:, None] * uniform(-1, 1, size=(2,))] *)
Definition centers (s : GeometrySample) : R * R :=
  (0.5 * (sample_length s - sample_radius s) * fst (sample_center s),
   0.5 * (sample_length s - sample_radius s) * snd (sample_center s)).

(** The builder of the peg of one row: one collider, a head and a tail visual. *)
Definition build_peg (length radius : R) : ActorBuilder :=
  add_box_visual (mkV (- length / 2) 0 0) (mkV (length / 2) radius radius)
    color_peg_tail
    (add_box_visual (mkV (length / 2) 0 0) (mkV (length / 2) radius radius)
       color_peg_head
       (add_box_collision (mkV 0 0 0) (mkV length radius radius)
          create_actor_builder)).

(** The values [_load_scene] saves for one row. *)
Record Geometry : Type := mkGeometry {
  peg_half_sizes : vec3;
  peg_head_offsets : Pose.t;
  box_hole_offsets : Pose.t;
  box_hole_radii : R;
  peg_builder : ActorBuilder;
  box_builder : ActorBuilder
}.

(** Row [i] of [_load_scene], with the arithmetic of the reals; how the
    radii are rounded when they are stored is the subject of [Float]. *)
Definition load_row (s : GeometrySample) : Geometry :=
  let length := sample_length s in
  let radius := sample_radius s in
  let inner_radius := radius + _clearance in
  let outer_radius := length in
  let depth := length in
  {| peg_half_sizes := mkV length radius radius;
     peg_head_offsets := Pose.create_from_p (mkV length 0 0);
     box_hole_offsets :=
       Pose.create_from_p (mkV 0 (fst (centers s)) (snd (centers s)));
     box_hole_radii := radius + _clearance;
     peg_builder := build_peg length radius;
     box_builder :=
       _build_box_with_hole inner_radius outer_radius depth (centers s) |}.

(** [_load_scene]: one geometry per parallel environment. *)
Definition _load_scene (samples : list GeometrySample) : list Geometry :=
  map load_row samples.

(** ** The state of one parallel environment *)

(** The saved geometry together with what the task reads from the simulator
    and the robot: the poses of the peg, of the box and of the tool centre
    point, and the answer of [agent.is_grasping(peg, max_angle=20)]. *)
Record Instance : Type := mkInstance {
  geometry : Geometry;
  peg : Pose.t;
  box : Pose.t;
  tcp : Pose.t;
  is_grasping : bool
}.

Definition set_peg_pose (pose : Pose.t) (i : Instance) : Instance :=
  mkInstance (geometry i) pose (box i) (tcp i) (is_grasping i).

Definition set_box_pose (pose : Pose.t) (i : Instance) : Instance :=
  mkInstance (geometry i) (peg i) pose (tcp i) (is_grasping i).

(** ** Derived frames *)

(** [peg.pose.p + peg_head_offsets.p] *)
Definition peg_head_pos (i : Instance) : vec3 :=
  vadd (Pose.p (peg i)) (Pose.p (peg_head_offsets (geometry i))).

(** [peg.pose * peg_head_offsets] *)
Definition peg_head_pose (i : Instance) : Pose.t :=
  (peg i ∘ peg_head_offsets (geometry i))%pose.

(** [box.pose * box_hole_offsets] *)
Definition box_hole_pose (i : Instance) : Pose.t :=
  (box i ∘ box_hole_offsets (geometry i))%pose.

(** [box.pose * box_hole_offsets * peg_head_offsets.inv()] *)
Definition goal_pose (i : Instance) : Pose.t :=
  (box i ∘ box_hole_offsets (geometry i)
         ∘ Pose.inv (peg_head_offsets (geometry i)))%pose.

(** ** Success *)

(** One row of [has_peg_inserted]: the flag and [peg_head_pos_at_hole]. *)
Definition has_peg_inserted (i : Instance) : bool * vec3 :=
  let peg_head_pos_at_hole :=
    Pose.p (Pose.inv (box_hole_pose i) ∘ peg_head_pose i)%pose in
  let radii := box_hole_radii (geometry i) in
  let x_flag := Rleb (-0.015) (vx peg_head_pos_at_hole) in
  let y_flag := Rleb (- radii) (vy peg_head_pos_at_hole)
                && Rleb (vy peg_head_pos_at_hole) radii in
  let z_flag := Rleb (- radii) (vz peg_head_pos_at_hole)
                && Rleb (vz peg_head_pos_at_hole) radii in
  (x_flag && y_flag && z_flag, peg_head_pos_at_hole).

(** The success condition in the words of the spec. *)
Definition success_spec (hole_radius : R) (pos : vec3) : Prop :=
  vx pos >= -0.015 /\ Rabs (vy pos) <= hole_radius /\ Rabs (vz pos) <= hole_radius.

(** ** Dense reward *)

(** Stage 2: [1 - tanh(4.0 * gripper_to_peg_dist)]. *)
Definition gripper_to_peg_dist (i : Instance) : R :=
  let tgt_gripper_pose := (peg i ∘ Pose.create_from_p (mkV (-0.06) 0 0))%pose in
  norm3 (vsub (Pose.p (tcp i)) (Pose.p tgt_gripper_pose)).

Definition reaching_reward (i : Instance) : R :=
  1 - tanh (4.0 * gripper_to_peg_dist i).

(** Stage 3: the yz distances of the peg head and of the peg to the goal. *)
Definition peg_head_wrt_goal_yz_dist (i : Instance) : R :=
  norm_yz (Pose.p (Pose.inv (goal_pose i) ∘ peg_head_pose i)%pose).

Definition peg_wrt_goal_yz_dist (i : Instance) : R :=
  norm_yz (Pose.p (Pose.inv (goal_pose i) ∘ peg i)%pose).

Definition pre_insertion_reward (i : Instance) : R :=
  3 * (1 - tanh (0.5 * (peg_head_wrt_goal_yz_dist i + peg_wrt_goal_yz_dist i)
                 + 4.5 * Rmax (peg_head_wrt_goal_yz_dist i)
                              (peg_wrt_goal_yz_dist i))).

Definition pre_inserted (i : Instance) : bool :=
  Rltb (peg_head_wrt_goal_yz_dist i) 0.01 && Rltb (peg_wrt_goal_yz_dist i) 0.01.

(** Stage 4: the norm of the peg head position in the hole frame. *)
Definition insertion_offset_norm (i : Instance) : R :=
  norm3 (Pose.p (Pose.inv (box_hole_pose i) ∘ peg_head_pose i)%pose).

Definition insertion_reward (i : Instance) : R :=
  5 * (1 - tanh (5.0 * insertion_offset_norm i)).

(** The four summands of [reward], in the order the code adds them. *)
Definition grasp_term (i : Instance) : R := b2r (is_grasping i).

Definition pre_insertion_term (i : Instance) : R :=
  pre_insertion_reward i * b2r (is_grasping i).

Definition insertion_term (i : Instance) : R :=
  insertion_reward i * b2r (is_grasping i && pre_inserted i).

(** One row of [reward] just before [reward[info["success"]] = 10]. *)
Definition staged_reward (i : Instance) : R :=
  reaching_reward i + grasp_term i + pre_insertion_term i + insertion_term i.

(** [reward[mask] = v]: a mask of another length is an [IndexError]. *)
Fixpoint masked_assign (reward : list R) (mask : list bool) (v : R)
  : option (list R) :=
  match reward, mask with
  | [], [] => Some []
  | r :: reward', m :: mask' =>
      option_map (cons (if m then v else r)) (masked_assign reward' mask' v)
  | _, _ => None
  end.

(** [compute_dense_reward(obs, action, info)] on the batch; [success] is
    [info["success"]].  Neither [obs] nor [action] is read. *)
Definition compute_dense_reward (env : list Instance) (success : list bool)
  : option (list R) :=
  masked_assign (map staged_reward env) success 10.

(** [compute_dense_reward(obs, action, info) / 10] *)
Definition compute_normalized_dense_reward (env : list Instance)
    (success : list bool) : option (list R) :=
  option_map (map (fun r => r / 10)) (compute_dense_reward env success).

(** Row by row: the reward of a row whose success flag is [s]. *)
Definition reward_row (i : Instance) (s : bool) : R :=
  if s then 10 else staged_reward i.

Definition reward_rows (env : list Instance) (success : list bool) : list R :=
  map (fun r => reward_row (fst r) (snd r)) (combine env success).

(** [evaluate()]: the [success] entry of the returned dictionary. *)
Definition evaluate (env : list Instance) : list bool :=
  map (fun i => fst (has_peg_inserted i)) env.

(** ** Episode initialisation *)

(** Modelled from the spec: [randomization.uniform(low, high, size)] of
    [mani_skill.envs.utils] is not among the sources.  The spec has it sample
    uniformly between [low] and [high]; one component of the result is the
    affine image of a draw [u] of the unit interval. *)
Definition uniform (low high u : R) : R := u * (high - low) + low.

(** A draw of the unit interval; the end point 1 is allowed, which covers
    generators that exclude it. *)
Definition unit_draw (u : R) : Prop := 0 <= u <= 1.

Definition uniform_xy (low high u : R * R) : R * R :=
  (uniform (fst low) (fst high) (fst u), uniform (snd low) (snd high) (snd u)).

(** The bounds given to the two calls of [randomization.uniform]. *)
Definition peg_xy_low : R * R := (-0.1, -0.3).
Definition peg_xy_high : R * R := (0.1, 0).
Definition box_xy_low : R * R := (-0.05, 0.2).
Definition box_xy_high : R * R := (0.05, 0.4).

Definition in_rect (low high xy : R * R) : Prop :=
  fst low <= fst xy <= fst high /\ snd low <= snd xy <= snd high.

(** What one row of a reset draws: the unit draws behind the two xy
    positions and the two quaternions of [random_quaternions]. *)
Record EpisodeDraw : Type := mkDraw {
  peg_u : R * R;
  peg_quat : quat;
  box_u : R * R;
  box_quat : quat
}.

Definition peg_init_xy (d : EpisodeDraw) : R * R :=
  uniform_xy peg_xy_low peg_xy_high (peg_u d).

Definition box_init_xy (d : EpisodeDraw) : R * R :=
  uniform_xy box_xy_low box_xy_high (box_u d).

(** One row of [_initialize_episode].  The robot is reset as well; the pose
    of its tool centre point afterwards and its grasp answer are the
    simulator's and are given by [robot]. *)
Definition _initialize_episode (d : EpisodeDraw) (robot : Pose.t * bool)
    (i : Instance) : Instance :=
  let xy := peg_init_xy d in
  let pos := mkV (fst xy) (snd xy) (vz (peg_half_sizes (geometry i))) in
  let peg_pose := Pose.create_from_pq pos (peg_quat d) in
  let xy := box_init_xy d in
  let pos := mkV (fst xy) (snd xy) (vx (peg_half_sizes (geometry i))) in
  let box_pose := Pose.create_from_pq pos (box_quat d) in
  mkInstance (geometry i) peg_pose box_pose (fst robot) (snd robot).

(** ** Reconfiguration frequency *)




Module BaseEnv.

(** Modelled from the spec: the base class [BaseEnv] of
    [mani_skill.envs.sapien_env] is not among the sources.  The spec has the
    randomised parameters and the offsets (re)created at reconfiguration
    events, which the caller may invoke again to regenerate the geometry,
    and has episodes started by the episode initialiser in between.  An
    environment is the frequency it was constructed with and its rows; which
    resets reconfigure, given the frequency, is decided by the base class and
    is not modelled. *)
Record t : Type := mk {
  reconfiguration_freq : Z;
  rows : list Instance
}.







End BaseEnv.

(** ** Floating-point storage of the radii *)

Module Float.






End Float.

(** ** Concrete instances *)

(** The geometry loaded for a peg of half length 0.085 and radius 0.015 with
    the hole in the middle of the box. *)
Definition example_geometry : Geometry :=
  load_row (mkSample 0.085 0.015 (0, 0)).

(** A box at the origin with identity rotation and an unrotated peg whose
    head is at [head]. *)
Definition example_instance (head : vec3) (grasped : bool) : Instance :=
  mkInstance example_geometry
    (Pose.create_from_p (vsub head (mkV 0.085 0 0)))
    Pose.identity Pose.identity grasped.

(** ** Visuals and points in the world *)

(** The union of the visuals of a builder. *)
Definition in_visual (b : ActorBuilder) (pt : vec3) : Prop :=
  Exists (fun s => in_box (fst s) pt) (visuals b).

(** Where a point [v], given in the frame of an actor at pose [a], is in the
    frame [a] is given in: the position of [a * Pose(v)]. *)
Definition transform (a : Pose.t) (v : vec3) : vec3 :=
  Pose.p (a ∘ Pose.create_from_p v)%pose.

(** What [random_quaternions] is asked for with [lock_x=True, lock_y=True]:
    a rotation about the z axis. *)
Definition yaw_only (a : quat) : Prop :=
  qnorm2 a = 1 /\ qx a = 0 /\ qy a = 0.

(** ** Observations *)

(** Modelled from the spec: [Pose.raw_pose] belongs to the class [Pose],
    which is not among the sources; the seven numbers of a rigid transform,
    the position followed by the quaternion. *)
Definition raw_pose (a : Pose.t) : list R :=
  [vx (Pose.p a); vy (Pose.p a); vz (Pose.p a);
   qw (Pose.q a); qx (Pose.q a); qy (Pose.q a); qz (Pose.q a)].

(** An observation dictionary: keys in insertion order, one row of each
    tensor as value. *)
Definition ObsDict : Type := list (String.string * list R).

Fixpoint dict_get (key : String.string) (d : ObsDict) : option (list R) :=
  match d with
  | [] => None
  | (k, v) :: d' => if String.eqb k key then Some v else dict_get key d'
  end.

(** One row of [_get_obs_extra(info)]; [use_state] is
    [obs_mode_struct.use_state].  [info] is not read. *)
Definition _get_obs_extra (use_state : bool) (i : Instance) : ObsDict :=
  let obs := [("tcp_pose"%string, raw_pose (tcp i))] in
  if use_state
  then obs ++
       [("peg_pose"%string, raw_pose (peg i));
        ("peg_half_size"%string,
         [vx (peg_half_sizes (geometry i)); vy (peg_half_sizes (geometry i));
          vz (peg_half_sizes (geometry i))]);
        ("box_hole_pose"%string, raw_pose (box_hole_pose i));
        ("box_hole_radius"%string, [box_hole_radii (geometry i)])]
  else obs.

(** ** The HDF5 inspection script *)

Module H5.

(** What [print_h5_structure] can meet in a file: a group with its members
    in the order of [node.keys()], a dataset with its name and the printed
    forms of its shape and dtype, or an object that is neither. *)
#[warnings="-register-all"]
Inductive node : Type :=
| Group (name : String.string) (members : list node)
| Dataset (name shape dtype : String.string)
| Other.

(** ["  " * indent] *)
Fixpoint spaces (indent : nat) : String.string :=
  match indent with
  | O => ""%string
  | S k => String.append "  " (spaces k)
  end.

(** [print_h5_structure(node, indent)]: the lines printed, in order. *)
Fixpoint print_h5_structure (nd : node) (indent : nat) : list String.string :=
  match nd with
  | Group name members =>
      String.append (spaces indent) (String.append "📁 " name)
      :: flat_map (fun m => print_h5_structure m (indent + 1)) members
  | Dataset name shape dtype =>
      [String.append (spaces indent)
         (String.append "📄 "
            (String.append name
               (String.append " | shape="
                  (String.append shape (String.append " | dtype=" dtype)))))]
  | Other => []
  end.

(** The groups and datasets of a tree. *)
Fixpoint count (nd : node) : nat :=
  match nd with
  | Group _ members => S (list_sum (map count members))
  | Dataset _ _ _ => 1
  | Other => 0
  end.

(** The groups and datasets of a tree with their depth, in pre-order. *)
Fixpoint depths (nd : node) (depth : nat) : list nat :=
  match nd with
  | Group _ members => depth :: flat_map (fun m => depths m (depth + 1)) members
  | Dataset _ _ _ => [depth]
  | Other => []
  end.

(** The number of leading spaces of a line. *)
Fixpoint leading_spaces (s : String.string) : nat :=
  match s with
  | String.String c s' =>
      if Ascii.eqb c " "%char then S (leading_spaces s') else O
  | String.EmptyString => O
  end.

End H5.

(** ** Pose algebra *)

(** Unfolds the pose operations on records given by their components. *)
Ltac pose_cbv :=
  cbv [Pose.mul Pose.inv Pose.create_from_p Pose.create_from_pq Pose.identity
       Pose.p Pose.q quaternion_apply qvec qpure qmul qconj qid qnorm2
       vadd vsub vneg vscale vx vy vz qw qx qy qz].

Lemma vec3_eq (a b : vec3) :
  vx a = vx b -> vy a = vy b -> vz a = vz b -> a = b.
Proof. destruct a, b; simpl; intros; subst; reflexivity. Qed.

Lemma qmul_assoc (a b c : quat) : qmul (qmul a b) c = qmul a (qmul b c).
Proof.
  destruct a, b, c. pose_cbv. f_equal; ring.
Qed.

Lemma qconj_qmul (a b : quat) : qconj (qmul a b) = qmul (qconj b) (qconj a).
Proof.
  destruct a, b. pose_cbv. f_equal; ring.
Qed.

Lemma quaternion_apply_qmul (a b : quat) (v : vec3) :
  quaternion_apply (qmul a b) v = quaternion_apply a (quaternion_apply b v).
Proof.
  destruct a, b, v. pose_cbv. f_equal; ring.
Qed.

Lemma quaternion_apply_vadd (a : quat) (u v : vec3) :
  quaternion_apply a (vadd u v)
  = vadd (quaternion_apply a u) (quaternion_apply a v).
Proof.
  destruct a, u, v. pose_cbv. f_equal; ring.
Qed.

Lemma quaternion_apply_vneg (a : quat) (v : vec3) :
  quaternion_apply a (vneg v) = vneg (quaternion_apply a v).
Proof.
  destruct a, v. pose_cbv. f_equal; ring.
Qed.

Lemma quaternion_apply_qid (v : vec3) : quaternion_apply qid v = v.
Proof.
  destruct v. pose_cbv. f_equal; ring.
Qed.

(** A quaternion and its conjugate rotate back and forth, up to the fourth
    power of the norm. *)
Lemma quaternion_apply_qconj (a : quat) (v : vec3) :
  quaternion_apply (qconj a) (quaternion_apply a v)
  = vscale (qnorm2 a * qnorm2 a) v.
Proof.
  destruct a, v. pose_cbv. f_equal; ring.
Qed.

Lemma vscale_1 (v : vec3) : vscale 1 v = v.
Proof. destruct v. pose_cbv. f_equal; ring. Qed.

Lemma vadd_assoc (u v w : vec3) : vadd (vadd u v) w = vadd u (vadd v w).
Proof. destruct u, v, w. pose_cbv. f_equal; ring. Qed.

Lemma pose_mul_assoc (a b c : Pose.t) :
  ((a ∘ b) ∘ c = a ∘ (b ∘ c))%pose.
Proof.
  destruct a as [pa qa], b as [pb qb], c as [pc qc].
  cbv [Pose.mul Pose.p Pose.q].
  now rewrite quaternion_apply_qmul, quaternion_apply_vadd, vadd_assoc,
    qmul_assoc.
Qed.

Lemma pose_mul_identity_l (a : Pose.t) : (Pose.identity ∘ a)%pose = a.
Proof.
  destruct a as [[x y z] [w i j k]]. pose_cbv. f_equal; f_equal; ring.
Qed.

Lemma pose_inv_identity : Pose.inv Pose.identity = Pose.identity.
Proof. pose_cbv. f_equal; f_equal; ring. Qed.

(** For rotations, that is unit quaternions, [inv] is the inverse and
    reverses products, as the spec asks of the pose algebra. *)
Lemma pose_inv_mul (a b : Pose.t) :
  qnorm2 (Pose.q a) = 1 ->
  Pose.inv (a ∘ b)%pose = (Pose.inv b ∘ Pose.inv a)%pose.
Proof.
  destruct a as [pa qa], b as [pb qb].
  cbv [Pose.mul Pose.inv Pose.p Pose.q]. intros Hn.
  rewrite qconj_qmul, quaternion_apply_qmul. f_equal.
  rewrite !quaternion_apply_vneg, quaternion_apply_vadd,
    quaternion_apply_qconj, Hn, Rmult_1_r, vscale_1.
  rewrite quaternion_apply_vadd.
  destruct (quaternion_apply (qconj qb) pb),
    (quaternion_apply (qconj qb) (quaternion_apply (qconj qa) pa)).
  pose_cbv. f_equal; ring.
Qed.

Lemma pose_inv_l (a : Pose.t) :
  qnorm2 (Pose.q a) = 1 ->
  Pose.q (Pose.inv a ∘ a)%pose = mkQ (qnorm2 (Pose.q a)) 0 0 0 /\
  Pose.p (Pose.inv a ∘ a)%pose = mkV 0 0 0.
Proof.
  destruct a as [[x y z] [w i j k]]. intros _. pose_cbv.
  split; f_equal; ring.
Qed.

(** Unfolds the derived frames of an instance given by its components. *)
Ltac frames_cbv :=
  cbv [box_hole_pose peg_head_pose peg_head_pos goal_pose
       example_instance example_geometry load_row centers set_peg_pose
       set_box_pose geometry peg box tcp is_grasping
       peg_half_sizes peg_head_offsets box_hole_offsets box_hole_radii
       sample_length sample_radius sample_center fst snd];
  pose_cbv.

(** ** Comparisons *)

Lemma Rleb_true_iff (a b : R) : Rleb a b = true <-> a <= b.
Proof. unfold Rleb; destruct (Rle_dec a b); split; intros; try easy. Qed.

Lemma Rltb_true_iff (a b : R) : Rltb a b = true <-> a < b.
Proof. unfold Rltb; destruct (Rlt_dec a b); split; intros; try easy. Qed.

Lemma Rabs_le_iff (a b : R) : Rabs a <= b <-> - b <= a <= b.
Proof.
  split; [|apply Rabs_le].
  unfold Rabs; destruct (Rcase_abs a); lra.
Qed.

(** ** Success predicate *)

Lemma has_peg_inserted_iff (i : Instance) :
  fst (has_peg_inserted i) = true <->
  success_spec (box_hole_radii (geometry i))
    (Pose.p (Pose.inv (box_hole_pose i) ∘ peg_head_pose i)%pose).
Proof.
  unfold has_peg_inserted, success_spec; cbn [fst].
  rewrite !andb_true_iff, !Rleb_true_iff, !Rabs_le_iff.
  intuition lra.
Qed.

Lemma hole_frame_at_identity (i : Instance) :
  box_hole_pose i = Pose.identity ->
  Pose.p (Pose.inv (box_hole_pose i) ∘ peg_head_pose i)%pose
  = Pose.p (peg_head_pose i).
Proof.
  intros ->. now rewrite pose_inv_identity, pose_mul_identity_l.
Qed.

(** C1: a row succeeds exactly when the peg head, expressed in the frame of
    the hole, has [x >= -0.015], [|y| <= hole_radius] and
    [|z| <= hole_radius]; the second component returned is that position.
    With the hole frame at the origin with identity rotation and a hole
    radius of 0.018, a head at (0, 0.01, -0.01) succeeds, one at
    (-0.02, 0, 0) does not and one at (0, 0.02, 0) does not. *)
Theorem has_peg_inserted_spec (i : Instance) :
  let pos := Pose.p (Pose.inv (box_hole_pose i) ∘ peg_head_pose i)%pose in
  snd (has_peg_inserted i) = pos /\
  (fst (has_peg_inserted i) = true <->
   success_spec (box_hole_radii (geometry i)) pos) /\
  (box_hole_pose i = Pose.identity ->
   box_hole_radii (geometry i) = 0.018 ->
   (Pose.p (peg_head_pose i) = mkV 0.0 0.01 (-0.01) ->
    fst (has_peg_inserted i) = true) /\
   (Pose.p (peg_head_pose i) = mkV (-0.02) 0 0 ->
    fst (has_peg_inserted i) = false) /\
   (Pose.p (peg_head_pose i) = mkV 0.0 0.02 0 ->
    fst (has_peg_inserted i) = false)).
Proof.
  intros pos. split; [reflexivity|]. split; [apply has_peg_inserted_iff|].
  intros Hid Hr.
  pose proof (has_peg_inserted_iff i) as Hiff.
  rewrite (hole_frame_at_identity i Hid), Hr in Hiff.
  unfold success_spec in Hiff.
  repeat split; intros Hp; rewrite Hp in Hiff; cbn [vx vy vz] in Hiff;
    rewrite !Rabs_le_iff in Hiff.
  - apply Hiff. lra.
  - apply not_true_is_false. intros H. apply Hiff in H. lra.
  - apply not_true_is_false. intros H. apply Hiff in H. lra.
Qed.

Lemma example_box_hole_pose (head : vec3) (g : bool) :
  box_hole_pose (example_instance head g) = Pose.identity.
Proof. destruct head. frames_cbv. f_equal; f_equal; ring. Qed.

Lemma example_hole_radius (head : vec3) (g : bool) :
  box_hole_radii (geometry (example_instance head g)) = 0.018.
Proof. frames_cbv. unfold _clearance. lra. Qed.

Lemma example_peg_head (head : vec3) (g : bool) :
  Pose.p (peg_head_pose (example_instance head g)) = head.
Proof. destruct head. frames_cbv. f_equal; ring. Qed.

Lemma has_peg_inserted_spec_witness :
  fst (has_peg_inserted (example_instance (mkV 0.0 0.01 (-0.01)) true)) = true /\
  fst (has_peg_inserted (example_instance (mkV (-0.02) 0 0) true)) = false /\
  fst (has_peg_inserted (example_instance (mkV 0.0 0.02 0) true)) = false.
Proof.
  split; [|split].
  - apply (proj1 (proj2 (proj2 (has_peg_inserted_spec
                           (example_instance (mkV 0.0 0.01 (-0.01)) true)))
             (example_box_hole_pose _ _) (example_hole_radius _ _))).
    apply example_peg_head.
  - apply (proj1 (proj2 (proj2 (proj2 (has_peg_inserted_spec
                           (example_instance (mkV (-0.02) 0 0) true)))
             (example_box_hole_pose _ _) (example_hole_radius _ _)))).
    apply example_peg_head.
  - apply (proj2 (proj2 (proj2 (proj2 (has_peg_inserted_spec
                           (example_instance (mkV 0.0 0.02 0) true)))
             (example_box_hole_pose _ _) (example_hole_radius _ _)))).
    apply example_peg_head.
Defined.

(** ** Derived frames *)

Lemma goal_pose_depends_on_box (i j : Instance) :
  geometry j = geometry i -> box j = box i -> goal_pose j = goal_pose i.
Proof. unfold goal_pose. now intros -> ->. Qed.

(** C3: the goal pose is [box.pose * box_hole_offsets * peg_head_offsets.inv()],
    whichever way the product is bracketed, and it is a function of the box
    pose and of the saved offsets alone: setting the peg pose leaves it
    unchanged, and so does any change that keeps the geometry and the box
    pose. *)
Theorem goal_pose_spec (i : Instance) :
  goal_pose i
  = (box i ∘ box_hole_offsets (geometry i)
           ∘ Pose.inv (peg_head_offsets (geometry i)))%pose /\
  goal_pose i
  = (box i ∘ (box_hole_offsets (geometry i)
                ∘ Pose.inv (peg_head_offsets (geometry i))))%pose /\
  goal_pose i
  = (box_hole_pose i ∘ Pose.inv (peg_head_offsets (geometry i)))%pose /\
  (forall pose, goal_pose (set_peg_pose pose i) = goal_pose i) /\
  (forall j, geometry j = geometry i -> box j = box i ->
             goal_pose j = goal_pose i).
Proof.
  split; [reflexivity|]. split; [apply pose_mul_assoc|].
  split; [reflexivity|]. split.
  - intros pose. now apply goal_pose_depends_on_box.
  - intros j. apply goal_pose_depends_on_box.
Qed.

Lemma goal_pose_spec_witness :
  goal_pose (example_instance (mkV 0.3 0.2 0.1) false)
  = goal_pose (example_instance (mkV 0 0 0) true).
Proof.
  apply (proj2 (proj2 (proj2 (proj2
           (goal_pose_spec (example_instance (mkV 0 0 0) true))))));
    reflexivity.
Defined.

(** Rotating the x axis by a unit quaternion. *)
Lemma quaternion_apply_x_axis (a : quat) (l : R) :
  qnorm2 a = 1 -> l <> 0 ->
  (quaternion_apply a (mkV l 0 0) = mkV l 0 0 <-> qy a = 0 /\ qz a = 0).
Proof.
  destruct a as [w x y z]. pose_cbv. intros Hn Hl. split.
  - intros H. injection H as Hx _ _.
    assert (Hs : l * (y * y + z * z) = 0) by nra.
    apply Rmult_integral in Hs. destruct Hs as [Hs|Hs]; [contradiction|].
    split; nra.
  - intros [-> ->]. f_equal; nra.
Qed.

Lemma vadd_cancel_l (a u v : vec3) : vadd a u = vadd a v <-> u = v.
Proof.
  split; [|now intros ->].
  destruct a, u, v. pose_cbv. intros H. injection H as Hx Hy Hz.
  f_equal; lra.
Qed.

(** C9: [peg_head_pos] adds the head offset to the peg position without
    rotating it, whereas the position of [peg_head_pose] adds the offset
    rotated by the peg's orientation.  The two agree exactly when that
    rotation fixes the offset, which for the loaded geometry is
    [(half_length, 0, 0)]; for a unit quaternion and a peg of non-zero
    length that is the case only for rotations about the peg's own x axis
    ([qy = qz = 0]), so that, for instance, a half turn about z makes them
    differ. *)
Theorem peg_head_pos_vs_pose (i : Instance) :
  let off := Pose.p (peg_head_offsets (geometry i)) in
  peg_head_pos i = vadd (Pose.p (peg i)) off /\
  Pose.p (peg_head_pose i)
  = vadd (Pose.p (peg i)) (quaternion_apply (Pose.q (peg i)) off) /\
  (peg_head_pos i = Pose.p (peg_head_pose i) <->
   quaternion_apply (Pose.q (peg i)) off = off) /\
  (forall s, geometry i = load_row s ->
     off = mkV (sample_length s) 0 0 /\
     (qnorm2 (Pose.q (peg i)) = 1 -> sample_length s <> 0 ->
      (peg_head_pos i = Pose.p (peg_head_pose i) <->
       qy (Pose.q (peg i)) = 0 /\ qz (Pose.q (peg i)) = 0)) /\
     (sample_length s <> 0 -> Pose.q (peg i) = mkQ 0 0 0 1 ->
      peg_head_pos i <> Pose.p (peg_head_pose i))).
Proof.
  intros off.
  assert (Hiff : peg_head_pos i = Pose.p (peg_head_pose i) <->
                 quaternion_apply (Pose.q (peg i)) off = off).
  { unfold peg_head_pos, peg_head_pose, Pose.mul; cbn [Pose.p].
    fold off. rewrite vadd_cancel_l. split; congruence. }
  split; [reflexivity|]. split; [reflexivity|]. split; [exact Hiff|].
  intros s Hg.
  assert (Hoff : off = mkV (sample_length s) 0 0)
    by (unfold off; rewrite Hg; reflexivity).
  split; [exact Hoff|]. split.
  - intros Hn Hl. rewrite Hiff, Hoff. now apply quaternion_apply_x_axis.
  - intros Hl Hq. rewrite Hiff, Hoff, Hq.
    rewrite quaternion_apply_x_axis; [|pose_cbv; lra|exact Hl].
    cbn [qy qz]. intros [_ H]. lra.
Qed.

Lemma peg_head_pos_vs_pose_witness :
  peg_head_pos
    (set_peg_pose (Pose.create_from_pq (mkV 0 0 0) (mkQ 0 0 0 1))
       (example_instance (mkV 0 0 0) false))
  <> Pose.p
       (peg_head_pose
          (set_peg_pose (Pose.create_from_pq (mkV 0 0 0) (mkQ 0 0 0 1))
             (example_instance (mkV 0 0 0) false))).
Proof.
  apply (proj2 (proj2 (proj2 (proj2 (proj2
           (peg_head_pos_vs_pose
              (set_peg_pose (Pose.create_from_pq (mkV 0 0 0) (mkQ 0 0 0 1))
                 (example_instance (mkV 0 0 0) false)))))
           (mkSample 0.085 0.015 (0, 0)) eq_refl))).
  - cbn [sample_length]. lra.
  - reflexivity.
Defined.

(** ** The hyperbolic tangent *)

Lemma tanh_exp (x : R) : tanh x = 1 - 2 / (exp (2 * x) + 1).
Proof.
  unfold tanh, sinh, cosh.
  replace (2 * x) with (x + x) by ring.
  rewrite exp_plus, exp_Ropp.
  pose proof (exp_pos x) as Hx.
  field. repeat split; nra.
Qed.

Lemma tanh_lt_1 (x : R) : tanh x < 1.
Proof.
  rewrite tanh_exp.
  pose proof (exp_pos (2 * x)) as Hx.
  assert (0 < 2 / (exp (2 * x) + 1)) by (apply Rdiv_lt_0_compat; lra).
  lra.
Qed.

Lemma tanh_increasing (x y : R) : x < y -> tanh x < tanh y.
Proof.
  intros Hxy. rewrite !tanh_exp.
  pose proof (exp_pos (2 * x)) as Hx.
  assert (He : exp (2 * x) < exp (2 * y)) by (apply exp_increasing; lra).
  assert (Hi : / (exp (2 * y) + 1) < / (exp (2 * x) + 1)).
  { apply Rinv_lt_contravar; nra. }
  unfold Rdiv. lra.
Qed.

Lemma tanh_0' : tanh 0 = 0.
Proof. rewrite tanh_exp, Rmult_0_r, exp_0. field. Qed.

Lemma tanh_nonneg (x : R) : 0 <= x -> 0 <= tanh x.
Proof.
  intros [Hx| <-].
  - rewrite <- tanh_0'. left. now apply tanh_increasing.
  - rewrite tanh_0'. lra.
Qed.

(** A saturating term [c * (1 - tanh d)] with [d >= 0] lies in [(0, c]]. *)
Lemma saturating_term_bounds (c d : R) :
  0 <= c -> 0 <= d -> 0 <= c * (1 - tanh d) <= c.
Proof.
  intros Hc Hd.
  pose proof (tanh_nonneg d Hd). pose proof (tanh_lt_1 d).
  split; nra.
Qed.

(** ** Reward terms *)

Lemma norm3_nonneg (v : vec3) : 0 <= norm3 v.
Proof. apply sqrt_pos. Qed.

Lemma norm_yz_nonneg (v : vec3) : 0 <= norm_yz v.
Proof. apply sqrt_pos. Qed.

Lemma b2r_bounds (b : bool) : 0 <= b2r b <= 1.
Proof. destruct b; simpl; lra. Qed.

Lemma reaching_reward_bounds (i : Instance) : 0 <= reaching_reward i <= 1.
Proof.
  unfold reaching_reward.
  pose proof (norm3_nonneg
                (vsub (Pose.p (tcp i))
                   (Pose.p (peg i ∘ Pose.create_from_p (mkV (-0.06) 0 0))%pose))).
  pose proof (saturating_term_bounds 1 (4.0 * gripper_to_peg_dist i)) as Hb.
  unfold gripper_to_peg_dist in *. lra.
Qed.

Lemma pre_insertion_reward_bounds (i : Instance) :
  0 <= pre_insertion_reward i <= 3.
Proof.
  unfold pre_insertion_reward.
  apply saturating_term_bounds; [lra|].
  pose proof (norm_yz_nonneg
                (Pose.p (Pose.inv (goal_pose i) ∘ peg_head_pose i)%pose)).
  pose proof (norm_yz_nonneg (Pose.p (Pose.inv (goal_pose i) ∘ peg i)%pose)).
  unfold peg_head_wrt_goal_yz_dist, peg_wrt_goal_yz_dist.
  match goal with |- context [Rmax ?a ?b] => pose proof (Rmax_l a b) end.
  lra.
Qed.

Lemma insertion_reward_bounds (i : Instance) : 0 <= insertion_reward i <= 5.
Proof.
  unfold insertion_reward.
  apply saturating_term_bounds; [lra|].
  pose proof (norm3_nonneg
                (Pose.p (Pose.inv (box_hole_pose i) ∘ peg_head_pose i)%pose)).
  unfold insertion_offset_norm. lra.
Qed.

Lemma gated_bounds (r c : R) (b : bool) :
  0 <= r <= c -> 0 <= r * b2r b <= c.
Proof. destruct b; simpl; lra. Qed.

Lemma staged_reward_bounds (i : Instance) : 0 <= staged_reward i <= 10.
Proof.
  unfold staged_reward, grasp_term, pre_insertion_term, insertion_term.
  pose proof (reaching_reward_bounds i).
  pose proof (b2r_bounds (is_grasping i)).
  pose proof (gated_bounds _ _ (is_grasping i) (pre_insertion_reward_bounds i)).
  pose proof (gated_bounds _ _ (is_grasping i && pre_inserted i)
                (insertion_reward_bounds i)).
  lra.
Qed.

Lemma reward_row_bounds (i : Instance) (s : bool) : 0 <= reward_row i s <= 10.
Proof.
  unfold reward_row. destruct s; [lra|apply staged_reward_bounds].
Qed.

(** ** The masked assignment *)

Lemma masked_assign_rows (rs : list R) (mask : list bool) (v : R) :
  length mask = length rs ->
  masked_assign rs mask v
  = Some (map (fun rm : R * bool => if snd rm then v else fst rm)
            (combine rs mask)).
Proof.
  revert mask. induction rs as [|r rs IH]; intros [|m mask] Hlen;
    simpl in *; try discriminate; [reflexivity|].
  rewrite IH by lia. reflexivity.
Qed.

Lemma masked_assign_length (rs : list R) (mask : list bool) (v : R) :
  length mask <> length rs -> masked_assign rs mask v = None.
Proof.
  revert mask. induction rs as [|r rs IH]; intros [|m mask] Hlen;
    simpl in *; try congruence.
  rewrite IH by lia. reflexivity.
Qed.

Lemma compute_dense_reward_rows (env : list Instance) (success : list bool) :
  length success = length env ->
  compute_dense_reward env success = Some (reward_rows env success).
Proof.
  intros Hlen. unfold compute_dense_reward, reward_rows.
  rewrite masked_assign_rows by now rewrite length_map.
  f_equal. clear Hlen. revert success.
  induction env as [|i env IH]; intros [|s success]; simpl; try reflexivity.
  now rewrite IH.
Qed.

(** The flags [evaluate] returns always fit the batch, so the reward of a
    step is defined. *)
Lemma compute_dense_reward_after_evaluate (env : list Instance) :
  compute_dense_reward env (evaluate env)
  = Some (reward_rows env (evaluate env)).
Proof.
  apply compute_dense_reward_rows. unfold evaluate. apply length_map.
Qed.

Lemma nth_error_reward_rows (env : list Instance) (success : list bool)
    (k : nat) (i : Instance) (s : bool) :
  nth_error env k = Some i -> nth_error success k = Some s ->
  nth_error (reward_rows env success) k = Some (reward_row i s).
Proof.
  unfold reward_rows. revert env success.
  induction k as [|k IH]; intros [|i' env] [|s' success]; simpl;
    try discriminate.
  - now intros [= ->] [= ->].
  - apply IH.
Qed.

(** ** Terminal override and range of the reward *)

(** C2: on every row whose success flag in [info] is true the dense reward
    is exactly 10, whatever the staged terms of that row are, and the
    normalised dense reward is exactly 1. *)
Theorem success_overrides_reward (env : list Instance) (success : list bool)
    (k : nat) :
  length success = length env ->
  nth_error success k = Some true ->
  exists rs nrs,
    compute_dense_reward env success = Some rs /\
    compute_normalized_dense_reward env success = Some nrs /\
    nth_error rs k = Some 10 /\
    nth_error nrs k = Some 1.
Proof.
  intros Hlen Hk.
  assert (Hi : exists i, nth_error env k = Some i).
  { destruct (nth_error env k) as [i|] eqn:E; [now exists i|].
    apply nth_error_None in E.
    assert (k < length success)%nat by (apply nth_error_Some; congruence).
    lia. }
  destruct Hi as [i Hi].
  exists (reward_rows env success),
         (map (fun r => r / 10) (reward_rows env success)).
  unfold compute_normalized_dense_reward.
  rewrite (compute_dense_reward_rows env success Hlen).
  pose proof (nth_error_reward_rows env success k i true Hi Hk) as Hr.
  repeat split; [exact Hr|].
  rewrite nth_error_map, Hr. simpl. f_equal. lra.
Qed.

Lemma success_overrides_reward_witness :
  exists rs nrs,
    compute_dense_reward
      [example_instance (mkV 0.3 0 0) false; example_instance (mkV 0 0 0) true]
      [false; true] = Some rs /\
    compute_normalized_dense_reward
      [example_instance (mkV 0.3 0 0) false; example_instance (mkV 0 0 0) true]
      [false; true] = Some nrs /\
    nth_error rs 1 = Some 10 /\
    nth_error nrs 1 = Some 1.
Proof.
  apply (success_overrides_reward
           [example_instance (mkV 0.3 0 0) false;
            example_instance (mkV 0 0 0) true]
           [false; true] 1%nat); reflexivity.
Defined.

Lemma Forall_reward_rows (env : list Instance) (success : list bool) :
  Forall (fun r => 0 <= r <= 10) (reward_rows env success).
Proof.
  unfold reward_rows. apply Forall_map, Forall_forall.
  intros [i s] _. apply reward_row_bounds.
Qed.

(** C8: the four summands of the reward of a row are non-negative and at most
    1, 1, 3 and 5; a row whose success flag is false gets their sum; every
    entry of the dense reward lies in [[0, 10]] and every entry of the
    normalised dense reward in [[0, 1]]. *)
Theorem dense_reward_range (env : list Instance) (success : list bool) :
  length success = length env ->
  exists rs,
    compute_dense_reward env success = Some rs /\
    compute_normalized_dense_reward env success
    = Some (map (fun r => r / 10) rs) /\
    Forall (fun r => 0 <= r <= 10) rs /\
    Forall (fun r => 0 <= r <= 1) (map (fun r => r / 10) rs) /\
    forall k i, nth_error env k = Some i ->
      (0 <= reaching_reward i <= 1 /\ 0 <= grasp_term i <= 1 /\
       0 <= pre_insertion_term i <= 3 /\ 0 <= insertion_term i <= 5) /\
      (nth_error success k = Some false ->
       nth_error rs k
       = Some (reaching_reward i + grasp_term i
               + pre_insertion_term i + insertion_term i)).
Proof.
  intros Hlen. exists (reward_rows env success).
  unfold compute_normalized_dense_reward.
  rewrite (compute_dense_reward_rows env success Hlen).
  pose proof (Forall_reward_rows env success) as Hall.
  repeat split; try exact Hall.
  - apply Forall_map. revert Hall. apply Forall_impl. intros r Hr. lra.
  - apply reaching_reward_bounds.
  - apply reaching_reward_bounds.
  - apply b2r_bounds.
  - apply b2r_bounds.
  - apply (gated_bounds _ _ _ (pre_insertion_reward_bounds i)).
  - apply (gated_bounds _ _ _ (pre_insertion_reward_bounds i)).
  - apply (gated_bounds _ _ _ (insertion_reward_bounds i)).
  - apply (gated_bounds _ _ _ (insertion_reward_bounds i)).
  - intros Hk. apply (nth_error_reward_rows env success k i false); assumption.
Qed.

Lemma dense_reward_range_witness :
  exists rs,
    compute_dense_reward [example_instance (mkV 0.3 0 0) true] [false]
    = Some rs /\
    Forall (fun r => 0 <= r <= 10) rs.
Proof.
  destruct (dense_reward_range [example_instance (mkV 0.3 0 0) true] [false]
              eq_refl) as [rs [H1 [_ [H2 _]]]].
  exists rs. split; [exact H1 | exact H2].
Defined.

(** ** Monotonicity of the insertion term *)

Lemma insertion_term_open (i : Instance) :
  is_grasping i = true -> pre_inserted i = true ->
  insertion_term i = 5 * (1 - tanh (5.0 * insertion_offset_norm i)).
Proof.
  intros Hg Hp. unfold insertion_term, insertion_reward.
  rewrite Hg, Hp. simpl. ring.
Qed.

(** C5: with the peg grasped and pre-inserted, the insertion term of the
    reward is [5 * (1 - tanh (5 * n))], [n] being the norm of the position of
    the peg head in the hole frame, and it is strictly decreasing in [n]. *)
Theorem insertion_term_decreasing (i j : Instance) :
  is_grasping i = true -> pre_inserted i = true ->
  is_grasping j = true -> pre_inserted j = true ->
  insertion_offset_norm i < insertion_offset_norm j ->
  insertion_term i = 5 * (1 - tanh (5.0 * insertion_offset_norm i)) /\
  insertion_term j = 5 * (1 - tanh (5.0 * insertion_offset_norm j)) /\
  insertion_term j < insertion_term i.
Proof.
  intros Hgi Hpi Hgj Hpj Hn.
  rewrite (insertion_term_open i Hgi Hpi), (insertion_term_open j Hgj Hpj).
  repeat split.
  assert (tanh (5.0 * insertion_offset_norm i)
          < tanh (5.0 * insertion_offset_norm j))
    by (apply tanh_increasing; lra).
  lra.
Qed.

Lemma norm_yz_zero (v : vec3) : vy v = 0 -> vz v = 0 -> norm_yz v = 0.
Proof.
  intros Hy Hz. unfold norm_yz. rewrite Hy, Hz, Rmult_0_r, Rplus_0_r.
  apply sqrt_0.
Qed.

Lemma example_pre_inserted (x : R) (g : bool) :
  pre_inserted (example_instance (mkV x 0 0) g) = true.
Proof.
  unfold pre_inserted.
  assert (H1 : peg_head_wrt_goal_yz_dist (example_instance (mkV x 0 0) g) = 0).
  { apply norm_yz_zero; frames_cbv; lra. }
  assert (H2 : peg_wrt_goal_yz_dist (example_instance (mkV x 0 0) g) = 0).
  { apply norm_yz_zero; frames_cbv; lra. }
  rewrite H1, H2. apply andb_true_iff; split; apply Rltb_true_iff; lra.
Qed.

Lemma example_insertion_offset_norm (x : R) (g : bool) :
  insertion_offset_norm (example_instance (mkV x 0 0) g) = sqrt (x * x).
Proof.
  unfold insertion_offset_norm, norm3. f_equal. frames_cbv. lra.
Qed.

Lemma insertion_term_decreasing_witness :
  insertion_term (example_instance (mkV 0.01 0 0) true)
  < insertion_term (example_instance (mkV 0 0 0) true).
Proof.
  apply (insertion_term_decreasing
           (example_instance (mkV 0 0 0) true)
           (example_instance (mkV 0.01 0 0) true)).
  - reflexivity.
  - apply example_pre_inserted.
  - reflexivity.
  - apply example_pre_inserted.
  - rewrite !example_insertion_offset_norm.
    apply sqrt_lt_1; lra.
Defined.

(** ** The box with a hole is a square frame *)

Lemma build_box_collisions (inner outer depth : R) (center : R * R) :
  collisions (_build_box_with_hole inner outer depth center)
  = map (fun hp => mkBox (snd hp) (fst hp))
      (combine (box_half_sizes inner outer depth center)
               (box_poses inner outer center)).
Proof. reflexivity. Qed.

(** The four colliders as intervals: two walls across y, two across z. *)
Lemma in_collision_walls (inner outer depth : R) (center : R * R) (pt : vec3) :
  in_collision (_build_box_with_hole inner outer depth center) pt <->
  Rabs (vx pt) <= depth /\
  ((fst center + inner <= vy pt <= outer /\ Rabs (vz pt) <= outer) \/
   (- outer <= vy pt <= fst center - inner /\ Rabs (vz pt) <= outer) \/
   (Rabs (vy pt) <= outer /\ snd center + inner <= vz pt <= outer) \/
   (Rabs (vy pt) <= outer /\ - outer <= vz pt <= snd center - inner)).
Proof.
  unfold in_collision. rewrite build_box_collisions.
  unfold box_half_sizes, box_poses, box_thickness.
  cbn [combine map fst snd].
  rewrite !Exists_cons, Exists_nil.
  unfold in_box; cbn [shape_pose half_size vx vy vz].
  rewrite !Rabs_le_iff. intuition lra.
Qed.

Lemma in_collision_frame (inner outer depth : R) (center : R * R) (pt : vec3) :
  0 <= inner ->
  Rabs (fst center) <= outer - inner -> Rabs (snd center) <= outer - inner ->
  (in_collision (_build_box_with_hole inner outer depth center) pt <->
   in_frame inner outer depth center pt).
Proof.
  intros Hi Hc0 Hc1. rewrite in_collision_walls.
  unfold in_frame, in_hole.
  rewrite Rabs_le_iff in Hc0, Hc1. rewrite !Rabs_le_iff.
  split.
  - intuition lra.
  - intros (Hx & Hy & Hz & Hh). split; [exact Hx|].
    destruct (Rle_lt_dec (fst center + inner) (vy pt)); [left; lra|].
    destruct (Rle_lt_dec (vy pt) (fst center - inner));
      [right; left; lra|].
    destruct (Rle_lt_dec (snd center + inner) (vz pt));
      [right; right; left; lra|].
    destruct (Rle_lt_dec (vz pt) (snd center - inner));
      [right; right; right; lra|].
    exfalso. apply Hh. lra.
Qed.

(** C4, as the code has it: for [0 <= inner_radius < outer_radius] and a
    centre offset with [|center| <= outer_radius - inner_radius] in y and in
    z, the four colliders have non-negative half sizes, the thin ones being
    [(outer_radius - inner_radius) / 2 -/+ center / 2], and their union is
    the square frame: the square [[-outer_radius, outer_radius]] in y and z
    without the rectangle of half extent [inner_radius] around [center],
    which lies inside the square; the hole runs along x. *)
Theorem box_with_hole_is_frame (inner outer depth : R) (center : R * R) :
  0 <= inner -> inner < outer ->
  Rabs (fst center) <= outer - inner -> Rabs (snd center) <= outer - inner ->
  (forall pt,
     in_collision (_build_box_with_hole inner outer depth center) pt <->
     in_frame inner outer depth center pt) /\
  (forall pt, in_hole inner center pt ->
     Rabs (vy pt) <= outer /\ Rabs (vz pt) <= outer) /\
  map (fun s => (vy (half_size s), vz (half_size s)))
    (collisions (_build_box_with_hole inner outer depth center))
  = [ ((outer - inner) * 0.5 - fst center * 0.5, outer);
      ((outer - inner) * 0.5 + fst center * 0.5, outer);
      (outer, (outer - inner) * 0.5 - snd center * 0.5);
      (outer, (outer - inner) * 0.5 + snd center * 0.5) ] /\
  Forall (fun s => 0 <= vy (half_size s) /\ 0 <= vz (half_size s))
    (collisions (_build_box_with_hole inner outer depth center)).
Proof.
  intros Hi Hio Hc0 Hc1. split; [|split; [|split]].
  - intros pt. now apply in_collision_frame.
  - intros pt [Hy Hz]. rewrite Rabs_le_iff in Hc0, Hc1.
    rewrite !Rabs_le_iff. lra.
  - reflexivity.
  - rewrite build_box_collisions.
    unfold box_half_sizes, box_poses, box_thickness.
    cbn [combine map fst snd].
    rewrite Rabs_le_iff in Hc0, Hc1.
    repeat (apply Forall_cons; [cbn [half_size vy vz]; split; lra|]).
    apply Forall_nil.
Qed.

Lemma box_with_hole_is_frame_witness :
  in_collision (_build_box_with_hole 0.018 0.085 0.085 (0.01, -0.02))
    (mkV 0 0.05 0) <->
  in_frame 0.018 0.085 0.085 (0.01, -0.02) (mkV 0 0.05 0).
Proof.
  apply (box_with_hole_is_frame 0.018 0.085 0.085 (0.01, -0.02));
    try (simpl; rewrite Rabs_le_iff); lra.
Defined.

(** C4 as stated, for every centre offset, fails: with inner radius 0.5,
    outer radius 1, depth 1 and the centre offset (3, 0) the thickness is
    0.25, the first wall gets the half size 0.25 - 1.5 and the second wall,
    centred at y = 0.75 with half size 1.75, reaches y = 2.5: the point
    (0, 2, 0) is in the union and outside the square of half extent 1. *)
Lemma box_with_hole_any_center_counterexample :
  0.5 < 1 /\
  ~ (forall pt,
       in_collision (_build_box_with_hole 0.5 1 1 (3, 0)) pt <->
       in_frame 0.5 1 1 (3, 0) pt).
Proof.
  split; [lra|]. intros H.
  assert (Hin : in_collision (_build_box_with_hole 0.5 1 1 (3, 0))
                  (mkV 0 2 0)).
  { apply in_collision_walls. cbn [fst snd vx vy vz].
    rewrite !Rabs_le_iff. split; [lra|]. right; left. lra. }
  apply H in Hin. destruct Hin as (_ & Hy & _).
  cbn [vy] in Hy. rewrite Rabs_le_iff in Hy. lra.
Qed.

(** The boxes [_load_scene] builds satisfy the condition on the centre. *)
Lemma load_row_box_is_frame (s : GeometrySample) (pt : vec3) :
  valid_sample s ->
  in_collision (box_builder (load_row s)) pt <->
  in_frame (box_hole_radii (load_row s)) (sample_length s) (sample_length s)
    (centers s) pt.
Proof.
  intros (Hl & Hr & Hu0 & Hu1).
  cbn [load_row box_builder box_hole_radii].
  apply in_collision_frame; unfold _clearance, centers; cbn [fst snd];
    try rewrite Rabs_le_iff; try nra.
Qed.

(** ** Hole radius *)

(** With rounding left aside, the hole radius saved for a row is the sampled
    radius plus the clearance 0.003; it is also the inner radius the box of
    that row is built with, and for a radius in [[0.015, 0.025]] it lies in
    [[0.018, 0.028]]. *)
Theorem hole_radius_is_radius_plus_clearance
    (samples : list GeometrySample) (k : nat) (s : GeometrySample) :
  nth_error samples k = Some s ->
  exists g,
    nth_error (_load_scene samples) k = Some g /\
    _clearance = 0.003 /\
    vy (peg_half_sizes g) = sample_radius s /\
    box_hole_radii g = sample_radius s + 0.003 /\
    box_builder g
    = _build_box_with_hole (box_hole_radii g) (sample_length s)
        (sample_length s) (centers s) /\
    (0.015 <= sample_radius s <= 0.025 -> 0.018 <= box_hole_radii g <= 0.028).
Proof.
  intros Hk. exists (load_row s).
  unfold _load_scene. rewrite nth_error_map, Hk.
  repeat split; cbn [load_row box_hole_radii]; unfold _clearance; lra.
Qed.

Lemma hole_radius_is_radius_plus_clearance_witness :
  exists g,
    nth_error
      (_load_scene [mkSample 0.1 0.02 (0.5, -0.5); mkSample 0.085 0.015 (0, 0)])
      1 = Some g /\
    box_hole_radii g = 0.015 + 0.003.
Proof.
  destruct (hole_radius_is_radius_plus_clearance
              [mkSample 0.1 0.02 (0.5, -0.5); mkSample 0.085 0.015 (0, 0)]
              1%nat (mkSample 0.085 0.015 (0, 0)) eq_refl)
    as [g (Hg & _ & _ & Hr & _)].
  exists g. split; [exact Hg | exact Hr].
Defined.

(** ** Initial placement *)

Lemma uniform_between (low high u : R) :
  low <= high -> unit_draw u -> low <= uniform low high u <= high.
Proof. unfold unit_draw, uniform. intros Hlh [H0 H1]. split; nra. Qed.

Lemma rectangles_disjoint (xy : R * R) :
  ~ (in_rect peg_xy_low peg_xy_high xy /\ in_rect box_xy_low box_xy_high xy).
Proof.
  unfold in_rect, peg_xy_low, peg_xy_high, box_xy_low, box_xy_high.
  cbn [fst snd]. lra.
Qed.

(** C7: whatever the unit draws of a reset are, the initial xy position of
    the peg lies in [[-0.1, 0.1] x [-0.3, 0]] and that of the box in
    [[-0.05, 0.05] x [0.2, 0.4]]; no point lies in both rectangles, so the
    two positions differ. *)
Theorem initial_xy_in_disjoint_rectangles (d : EpisodeDraw)
    (robot : Pose.t * bool) (i : Instance) :
  unit_draw (fst (peg_u d)) -> unit_draw (snd (peg_u d)) ->
  unit_draw (fst (box_u d)) -> unit_draw (snd (box_u d)) ->
  let j := _initialize_episode d robot i in
  let peg_xy := (vx (Pose.p (peg j)), vy (Pose.p (peg j))) in
  let box_xy := (vx (Pose.p (box j)), vy (Pose.p (box j))) in
  in_rect (-0.1, -0.3) (0.1, 0) peg_xy /\
  in_rect (-0.05, 0.2) (0.05, 0.4) box_xy /\
  (forall xy, ~ (in_rect (-0.1, -0.3) (0.1, 0) xy /\
                 in_rect (-0.05, 0.2) (0.05, 0.4) xy)) /\
  peg_xy <> box_xy.
Proof.
  intros Hp0 Hp1 Hb0 Hb1 j peg_xy box_xy.
  assert (Hpeg : in_rect peg_xy_low peg_xy_high peg_xy).
  { unfold in_rect, peg_xy, peg_xy_low, peg_xy_high; cbn.
    split; apply uniform_between; trivial; lra. }
  assert (Hbox : in_rect box_xy_low box_xy_high box_xy).
  { unfold in_rect, box_xy, box_xy_low, box_xy_high; cbn.
    split; apply uniform_between; trivial; lra. }
  split; [exact Hpeg|]. split; [exact Hbox|]. split.
  - exact rectangles_disjoint.
  - intros Heq. apply (rectangles_disjoint peg_xy). split; [exact Hpeg|].
    rewrite Heq. exact Hbox.
Qed.

Lemma initial_xy_in_disjoint_rectangles_witness :
  let j := _initialize_episode (mkDraw (0.5, 1) qid (0, 0.25) qid)
             (Pose.identity, false) (example_instance (mkV 0 0 0) false) in
  in_rect (-0.1, -0.3) (0.1, 0) (vx (Pose.p (peg j)), vy (Pose.p (peg j))) /\
  in_rect (-0.05, 0.2) (0.05, 0.4) (vx (Pose.p (box j)), vy (Pose.p (box j))).
Proof.
  intros j.
  destruct (initial_xy_in_disjoint_rectangles
              (mkDraw (0.5, 1) qid (0, 0.25) qid) (Pose.identity, false)
              (example_instance (mkV 0 0 0) false))
    as (Hp & Hb & _); try (unfold unit_draw; cbn [fst snd peg_u box_u]; lra).
  split; [exact Hp | exact Hb].
Defined.

(** ** Reconfiguration *)








(** ** The loaded geometry *)

Lemma in_collision_peg (length radius : R) (pt : vec3) :
  in_collision (build_peg length radius) pt <->
  Rabs (vx pt) <= length /\ Rabs (vy pt) <= radius /\ Rabs (vz pt) <= radius.
Proof.
  unfold in_collision. cbn [build_peg add_box_visual add_box_collision
    create_actor_builder collisions app].
  rewrite Exists_cons, Exists_nil. unfold in_box.
  cbn [shape_pose half_size vx vy vz]. rewrite !Rminus_0_r. tauto.
Qed.

Lemma in_visual_peg (length radius : R) (pt : vec3) :
  in_visual (build_peg length radius) pt <->
  (0 <= vx pt <= length \/ - length <= vx pt <= 0) /\
  Rabs (vy pt) <= radius /\ Rabs (vz pt) <= radius.
Proof.
  unfold in_visual. cbn [build_peg add_box_visual add_box_collision
    create_actor_builder visuals app].
  rewrite !Exists_cons, Exists_nil. unfold in_box.
  cbn [fst shape_pose half_size vx vy vz].
  rewrite !Rminus_0_r, !Rabs_le_iff. intuition lra.
Qed.

Lemma build_box_visuals (inner outer depth : R) (center : R * R) :
  map fst (visuals (_build_box_with_hole inner outer depth center))
  = collisions (_build_box_with_hole inner outer depth center) /\
  map snd (visuals (_build_box_with_hole inner outer depth center))
  = [color_box; color_box; color_box; color_box].
Proof. split; reflexivity. Qed.

Lemma centers_bound (s : GeometrySample) :
  valid_sample s ->
  Rabs (fst (centers s)) <= 0.5 * (sample_length s - sample_radius s) /\
  Rabs (snd (centers s)) <= 0.5 * (sample_length s - sample_radius s).
Proof.
  intros (Hl & Hr & Hu0 & Hu1). unfold centers; cbn [fst snd].
  rewrite !Rabs_le_iff. split; split; nra.
Qed.

(** X1: for lengths in [[0.085, 0.125]], radii in [[0.015, 0.025]] and centre
    draws in [[-1, 1]], the geometry [_load_scene] produces is well formed:
    the hole radius is below the box half size, the hole centre is within
    [0.5 * (length - radius)] of the box axis, the hole lies strictly inside
    the box cross-section, and every wall of the box has half sizes of at
    least 0.0135 across and at least 0.085 along the hole. *)
Theorem loaded_geometry_is_well_formed (s : GeometrySample) :
  valid_sample s ->
  let g := load_row s in
  box_hole_radii g < vx (peg_half_sizes g) /\
  Rabs (fst (centers s)) <= 0.5 * (sample_length s - sample_radius s) /\
  Rabs (snd (centers s)) <= 0.5 * (sample_length s - sample_radius s) /\
  (forall pt, in_hole (box_hole_radii g) (centers s) pt ->
     Rabs (vy pt) < sample_length s /\ Rabs (vz pt) < sample_length s) /\
  Forall (fun b => 0.085 <= vx (half_size b) /\ 0.0135 <= vy (half_size b) /\
                   0.0135 <= vz (half_size b))
    (collisions (box_builder g)).
Proof.
  intros Hv g. destruct (centers_bound s Hv) as [Hc0 Hc1].
  destruct Hv as (Hl & Hr & _).
  split; [|split; [exact Hc0|split; [exact Hc1|split]]].
  - cbn. unfold _clearance. lra.
  - intros pt [Hy Hz]. cbn [g load_row box_hole_radii] in Hy, Hz.
    unfold _clearance in Hy, Hz. rewrite Rabs_le_iff in Hc0, Hc1.
    split; apply Rabs_def1; lra.
  - cbn [g load_row box_builder]. rewrite build_box_collisions.
    unfold box_half_sizes, box_poses, box_thickness, _clearance.
    cbn [combine map fst snd] in *.
    rewrite Rabs_le_iff in Hc0, Hc1.
    repeat (apply Forall_cons;
            [cbn [half_size vx vy vz]; split; [|split]; lra|]).
    apply Forall_nil.
Qed.

Lemma loaded_geometry_is_well_formed_witness :
  box_hole_radii (load_row (mkSample 0.1 0.02 (0.5, -1)))
  < vx (peg_half_sizes (load_row (mkSample 0.1 0.02 (0.5, -1)))).
Proof.
  apply (loaded_geometry_is_well_formed (mkSample 0.1 0.02 (0.5, -1))).
  unfold valid_sample; cbn [sample_length sample_radius sample_center fst snd].
  lra.
Defined.

(** X2: the box [_load_scene] builds agrees with the values it saves for the
    success test: the colliders fill the square of half size
    [peg_half_sizes[0]], of that depth, without the rectangle of half extent
    [box_hole_radii] around the position of [box_hole_offsets], and that
    offset has no x component and no rotation. *)
Theorem loaded_box_matches_saved_hole (s : GeometrySample) (pt : vec3) :
  valid_sample s ->
  let g := load_row s in
  let off := Pose.p (box_hole_offsets g) in
  (in_collision (box_builder g) pt <->
   in_frame (box_hole_radii g) (vx (peg_half_sizes g)) (vx (peg_half_sizes g))
     (vy off, vz off) pt) /\
  vx off = 0 /\ Pose.q (box_hole_offsets g) = qid.
Proof.
  intros Hv g off. split; [|split; reflexivity].
  apply (load_row_box_is_frame s pt Hv).
Qed.

Lemma loaded_box_matches_saved_hole_witness :
  in_collision (box_builder (load_row (mkSample 0.1 0.02 (0.5, -1))))
    (mkV 0 0.09 0) <->
  in_frame (0.02 + _clearance) 0.1 0.1
    (0.5 * (0.1 - 0.02) * 0.5, 0.5 * (0.1 - 0.02) * -1) (mkV 0 0.09 0).
Proof.
  apply (loaded_box_matches_saved_hole (mkSample 0.1 0.02 (0.5, -1))
           (mkV 0 0.09 0)).
  unfold valid_sample; cbn [sample_length sample_radius sample_center fst snd].
  lra.
Defined.

Lemma transform_eq (a : Pose.t) (v : vec3) :
  transform a v = vadd (Pose.p a) (quaternion_apply (Pose.q a) v).
Proof. reflexivity. Qed.

Lemma transform_mul (a b : Pose.t) (v : vec3) :
  transform (a ∘ b)%pose v = transform a (transform b v).
Proof.
  unfold transform. rewrite pose_mul_assoc. reflexivity.
Qed.

(** X3: a peg whose pose is the goal pose is inside the hole.  Every point of
    the peg's collider, taken to the frame of the box by
    [box_hole_offsets * peg_head_offsets.inv()], is outside the four walls,
    and the goal pose places the point there: its position under
    [goal_pose] is the position of that box-frame point under [box.pose]. *)
Theorem peg_at_goal_clears_walls (i : Instance) (s : GeometrySample)
    (pt : vec3) :
  geometry i = load_row s ->
  in_collision (peg_builder (geometry i)) pt ->
  let rel := (box_hole_offsets (geometry i)
              ∘ Pose.inv (peg_head_offsets (geometry i)))%pose in
  transform (goal_pose i) pt = transform (box i) (transform rel pt) /\
  transform rel pt
  = mkV (vx pt - sample_length s) (vy pt + fst (centers s))
        (vz pt + snd (centers s)) /\
  ~ in_collision (box_builder (geometry i)) (transform rel pt).
Proof.
  intros Hg Hin rel.
  assert (Hrel : transform rel pt
                 = mkV (vx pt - sample_length s) (vy pt + fst (centers s))
                     (vz pt + snd (centers s))).
  { unfold rel. rewrite Hg. destruct pt as [x y z].
    cbv [transform load_row box_hole_offsets peg_head_offsets]. pose_cbv.
    f_equal; ring. }
  split; [|split; [exact Hrel|]].
  - unfold goal_pose. fold rel.
    replace (box i ∘ box_hole_offsets (geometry i)
               ∘ Pose.inv (peg_head_offsets (geometry i)))%pose
      with (box i ∘ rel)%pose by (unfold rel; now rewrite pose_mul_assoc).
    apply transform_mul.
  - rewrite Hrel. rewrite Hg in Hin |- *.
    cbn [load_row peg_builder box_builder] in Hin |- *.
    apply in_collision_peg in Hin. destruct Hin as (_ & Hy & Hz).
    rewrite Rabs_le_iff in Hy, Hz.
    rewrite in_collision_walls. cbn [vx vy vz]. unfold _clearance.
    rewrite !Rabs_le_iff. intros (_ & [H|[H|[H|H]]]); lra.
Qed.

Lemma peg_at_goal_clears_walls_witness :
  ~ in_collision (box_builder example_geometry)
      (transform (box_hole_offsets example_geometry
                  ∘ Pose.inv (peg_head_offsets example_geometry))%pose
         (mkV 0.085 0.015 (-0.015))).
Proof.
  apply (peg_at_goal_clears_walls (example_instance (mkV 0 0 0) true)
           (mkSample 0.085 0.015 (0, 0)) (mkV 0.085 0.015 (-0.015)) eq_refl).
  apply in_collision_peg. cbn [vx vy vz sample_length sample_radius].
  rewrite !Rabs_le_iff. lra.
Defined.

(** X4: what is drawn is what collides.  The head and tail visuals of the peg
    meet at the peg's origin, the head on the side of positive x, and
    together fill exactly the peg's collider; the visuals of the box are its
    four colliders, all in the colour of the box. *)
Theorem visuals_fill_colliders (length radius : R) (inner outer depth : R)
    (center : R * R) (pt : vec3) :
  (in_visual (build_peg length radius) pt <->
   in_collision (build_peg length radius) pt) /\
  map snd (visuals (build_peg length radius))
  = [color_peg_head; color_peg_tail] /\
  (forall b, nth_error (visuals (build_peg length radius)) 0 = Some b ->
     in_box (fst b) pt -> 0 <= vx pt) /\
  (forall b, nth_error (visuals (build_peg length radius)) 1 = Some b ->
     in_box (fst b) pt -> vx pt <= 0) /\
  (in_visual (_build_box_with_hole inner outer depth center) pt <->
   in_collision (_build_box_with_hole inner outer depth center) pt) /\
  map snd (visuals (_build_box_with_hole inner outer depth center))
  = [color_box; color_box; color_box; color_box].
Proof.
  split; [|split; [reflexivity|split; [|split; [|split]]]].
  - rewrite in_visual_peg, in_collision_peg, !Rabs_le_iff. intuition lra.
  - intros b [= <-]. unfold in_box. cbn [fst shape_pose half_size vx].
    rewrite Rabs_le_iff. lra.
  - intros b [= <-]. unfold in_box. cbn [fst shape_pose half_size vx].
    rewrite Rabs_le_iff. lra.
  - unfold in_visual, in_collision.
    rewrite <- (proj1 (build_box_visuals inner outer depth center)).
    rewrite Exists_map. reflexivity.
  - apply build_box_visuals.
Qed.

Lemma visuals_fill_colliders_witness :
  in_visual (build_peg 0.1 0.02) (mkV (-0.05) 0 0.01) <->
  in_collision (build_peg 0.1 0.02) (mkV (-0.05) 0 0.01).
Proof.
  apply (visuals_fill_colliders 0.1 0.02 0.023 0.1 0.1 (0, 0)
           (mkV (-0.05) 0 0.01)).
Defined.

(** ** Stages of the reward *)

Lemma tanh_eq_0 (x : R) : 0 <= x -> tanh x = 0 -> x = 0.
Proof.
  intros [Hx|Hx] H; [|now symmetry].
  apply tanh_increasing in Hx. rewrite tanh_0' in Hx. lra.
Qed.

Lemma saturating_term_max (c d : R) :
  0 < c -> 0 <= d -> (c * (1 - tanh d) = c <-> d = 0).
Proof.
  intros Hc Hd. split.
  - intros H. apply tanh_eq_0; [exact Hd|]. nra.
  - intros ->. rewrite tanh_0'. ring.
Qed.

Lemma saturating_term_pos (c d : R) : 0 < c -> 0 < c * (1 - tanh d).
Proof. intros Hc. pose proof (tanh_lt_1 d). nra. Qed.

Lemma norm3_eq_0 (v : vec3) : norm3 v = 0 <-> v = mkV 0 0 0.
Proof.
  destruct v as [x y z]. unfold norm3; cbn [vx vy vz]. split.
  - intros H. apply sqrt_eq_0 in H; [|nra].
    assert (x = 0) by nra. assert (y = 0) by nra. assert (z = 0) by nra.
    now subst.
  - intros [= -> -> ->].
    replace (0 * 0 + 0 * 0 + 0 * 0) with 0 by ring. apply sqrt_0.
Qed.

Lemma vsub_eq_0 (a b : vec3) : vsub a b = mkV 0 0 0 <-> a = b.
Proof.
  destruct a, b. pose_cbv. split.
  - intros [= H1 H2 H3]. f_equal; lra.
  - intros [= -> -> ->]. f_equal; ring.
Qed.

Lemma reaching_reward_pos (i : Instance) : 0 < reaching_reward i.
Proof.
  unfold reaching_reward. pose proof (tanh_lt_1 (4.0 * gripper_to_peg_dist i)).
  lra.
Qed.

Lemma pre_insertion_arg_nonneg (i : Instance) :
  0 <= 0.5 * (peg_head_wrt_goal_yz_dist i + peg_wrt_goal_yz_dist i)
       + 4.5 * Rmax (peg_head_wrt_goal_yz_dist i) (peg_wrt_goal_yz_dist i).
Proof.
  pose proof (norm_yz_nonneg
                (Pose.p (Pose.inv (goal_pose i) ∘ peg_head_pose i)%pose)).
  pose proof (norm_yz_nonneg (Pose.p (Pose.inv (goal_pose i) ∘ peg i)%pose)).
  unfold peg_head_wrt_goal_yz_dist, peg_wrt_goal_yz_dist.
  match goal with |- context [Rmax ?a ?b] => pose proof (Rmax_l a b) end.
  lra.
Qed.

Lemma staged_reward_ungrasped (i : Instance) :
  is_grasping i = false ->
  staged_reward i = reaching_reward i /\ 0 < staged_reward i <= 1.
Proof.
  intros Hi.
  assert (Hs : staged_reward i = reaching_reward i).
  { unfold staged_reward, grasp_term, pre_insertion_term, insertion_term.
    rewrite Hi. cbn [andb b2r]. ring. }
  pose proof (reaching_reward_pos i). pose proof (reaching_reward_bounds i).
  rewrite Hs. repeat split; lra.
Qed.

Lemma staged_reward_grasped (j : Instance) :
  is_grasping j = true -> 1 < staged_reward j.
Proof.
  intros Hj.
  unfold staged_reward, grasp_term, pre_insertion_term, insertion_term.
  rewrite Hj. cbn [andb b2r].
  pose proof (reaching_reward_pos j).
  pose proof (pre_insertion_reward_bounds j).
  pose proof (gated_bounds _ _ (pre_inserted j) (insertion_reward_bounds j)).
  lra.
Qed.

(** X5: nothing beyond reaching is rewarded before the grasp.  In the dense
    reward of a batch, a row that is not grasped and not flagged as a success
    gets the reaching reward alone, a value in [(0, 1]]; a grasped row gets
    more than 1, whether it is flagged or not, and so strictly more than
    every such row.  (A row flagged as a success gets 10 in any case.) *)
Theorem grasp_gates_reward (env : list Instance) (success : list bool)
    (k l : nat) (i j : Instance) :
  length success = length env ->
  nth_error env k = Some i -> nth_error env l = Some j ->
  nth_error success k = Some false ->
  is_grasping i = false -> is_grasping j = true ->
  exists rs rk rl,
    compute_dense_reward env success = Some rs /\
    nth_error rs k = Some rk /\ nth_error rs l = Some rl /\
    rk = reaching_reward i /\ 0 < rk <= 1 /\ 1 < rl /\ rk < rl.
Proof.
  intros Hlen Hk Hl Hsk Hi Hj.
  assert (Hsl : exists s, nth_error success l = Some s).
  { destruct (nth_error success l) as [s|] eqn:E; [now exists s|].
    apply nth_error_None in E.
    assert (l < length env)%nat by (apply nth_error_Some; congruence).
    lia. }
  destruct Hsl as [s Hsl].
  exists (reward_rows env success), (reward_row i false), (reward_row j s).
  destruct (staged_reward_ungrasped i Hi) as [Hsi Hbi].
  pose proof (staged_reward_grasped j Hj) as Hsj.
  assert (Hrl : 1 < reward_row j s) by (destruct s; cbn [reward_row]; lra).
  split; [now apply compute_dense_reward_rows|].
  split; [now apply nth_error_reward_rows|].
  split; [now apply nth_error_reward_rows|].
  cbn [reward_row]. repeat split; lra.
Qed.

Lemma grasp_gates_reward_witness :
  exists rs rk rl,
    compute_dense_reward
      [example_instance (mkV 0 0 0) false; example_instance (mkV 0.3 0 0) true]
      [false; false] = Some rs /\
    nth_error rs 0 = Some rk /\ nth_error rs 1 = Some rl /\ rk < rl.
Proof.
  destruct (grasp_gates_reward
              [example_instance (mkV 0 0 0) false;
               example_instance (mkV 0.3 0 0) true]
              [false; false] 0%nat 1%nat
              (example_instance (mkV 0 0 0) false)
              (example_instance (mkV 0.3 0 0) true)
              eq_refl eq_refl eq_refl eq_refl eq_refl eq_refl)
    as (rs & rk & rl & H1 & H2 & H3 & _ & _ & _ & H4).
  exists rs, rk, rl. repeat split; assumption.
Defined.

(** X6: the insertion reward is paid only to a grasped and laterally aligned
    peg.  If the peg is not grasped or one of the two yz distances to the
    goal is not below 0.01, the insertion term is 0 and the reward of the row
    is at most 5; so a staged reward above 5 shows a grasped peg with both
    distances below 0.01. *)
Theorem insertion_gated_by_alignment (i : Instance) :
  (is_grasping i && pre_inserted i = false ->
   insertion_term i = 0 /\ staged_reward i <= 5) /\
  (5 < staged_reward i ->
   is_grasping i = true /\
   peg_head_wrt_goal_yz_dist i < 0.01 /\ peg_wrt_goal_yz_dist i < 0.01).
Proof.
  assert (Hoff : is_grasping i && pre_inserted i = false ->
                 insertion_term i = 0 /\ staged_reward i <= 5).
  { intros Hg. unfold staged_reward, grasp_term, pre_insertion_term,
      insertion_term. rewrite Hg. cbn [b2r].
    pose proof (reaching_reward_bounds i).
    pose proof (b2r_bounds (is_grasping i)).
    pose proof (gated_bounds _ _ (is_grasping i)
                  (pre_insertion_reward_bounds i)).
    split; lra. }
  split; [exact Hoff|].
  intros H5.
  destruct (is_grasping i && pre_inserted i) eqn:Hg.
  - apply andb_true_iff in Hg. destruct Hg as [Hg Hp].
    unfold pre_inserted in Hp. apply andb_true_iff in Hp.
    rewrite !Rltb_true_iff in Hp. tauto.
  - destruct (Hoff eq_refl). lra.
Qed.

Lemma insertion_gated_by_alignment_witness :
  insertion_term (example_instance (mkV 0 0 0) false) = 0 /\
  staged_reward (example_instance (mkV 0 0 0) false) <= 5.
Proof.
  apply (insertion_gated_by_alignment (example_instance (mkV 0 0 0) false)).
  reflexivity.
Defined.

Lemma pre_insertion_reward_max (i : Instance) :
  pre_insertion_reward i = 3 <->
  peg_head_wrt_goal_yz_dist i = 0 /\ peg_wrt_goal_yz_dist i = 0.
Proof.
  unfold pre_insertion_reward.
  rewrite (saturating_term_max 3 _ ltac:(lra) (pre_insertion_arg_nonneg i)).
  pose proof (norm_yz_nonneg
                (Pose.p (Pose.inv (goal_pose i) ∘ peg_head_pose i)%pose)) as H1.
  pose proof (norm_yz_nonneg
                (Pose.p (Pose.inv (goal_pose i) ∘ peg i)%pose)) as H2.
  fold (peg_head_wrt_goal_yz_dist i) in H1. fold (peg_wrt_goal_yz_dist i) in H2.
  pose proof (Rmax_l (peg_head_wrt_goal_yz_dist i) (peg_wrt_goal_yz_dist i))
    as Hl.
  pose proof (Rmax_r (peg_head_wrt_goal_yz_dist i) (peg_wrt_goal_yz_dist i))
    as Hr.
  split.
  - intros H. split; lra.
  - intros [E1 E2]. rewrite E1, E2. rewrite Rmax_left by lra. lra.
Qed.

Lemma insertion_reward_max (i : Instance) :
  insertion_reward i = 5 <-> snd (has_peg_inserted i) = mkV 0 0 0.
Proof.
  unfold insertion_reward.
  rewrite (saturating_term_max 5 (5.0 * insertion_offset_norm i)
             ltac:(lra)).
  - unfold insertion_offset_norm. rewrite <- norm3_eq_0.
    cbn [has_peg_inserted snd]. split; lra.
  - pose proof (norm3_nonneg
                  (Pose.p (Pose.inv (box_hole_pose i) ∘ peg_head_pose i)%pose)).
    unfold insertion_offset_norm. lra.
Qed.

Lemma reaching_reward_max (i : Instance) :
  reaching_reward i = 1 <->
  Pose.p (tcp i) = transform (peg i) (mkV (-0.06) 0 0).
Proof.
  unfold reaching_reward.
  pose proof (saturating_term_max 1 (4.0 * gripper_to_peg_dist i)
                ltac:(lra)) as H.
  assert (Hd : 0 <= 4.0 * gripper_to_peg_dist i).
  { clear H. pose proof (norm3_nonneg
                  (vsub (Pose.p (tcp i))
                     (Pose.p (peg i ∘ Pose.create_from_p (mkV (-0.06) 0 0))%pose))).
    unfold gripper_to_peg_dist. lra. }
  specialize (H Hd). rewrite Rmult_1_l in H. rewrite H.
  unfold gripper_to_peg_dist, transform.
  rewrite <- vsub_eq_0, <- norm3_eq_0. split; lra.
Qed.

(** X7: the staged reward reaches its upper bound 10 exactly when the peg is
    grasped, the tool centre point is at the grasp target 0.06 behind the peg
    origin, the peg head and the peg origin are both on the axis of the goal
    frame, and the peg head is at the centre of the hole. *)
Theorem staged_reward_maximal_iff (i : Instance) :
  staged_reward i = 10 <->
  is_grasping i = true /\
  Pose.p (tcp i) = transform (peg i) (mkV (-0.06) 0 0) /\
  peg_head_wrt_goal_yz_dist i = 0 /\ peg_wrt_goal_yz_dist i = 0 /\
  snd (has_peg_inserted i) = mkV 0 0 0.
Proof.
  rewrite <- reaching_reward_max, <- insertion_reward_max.
  pose proof (pre_insertion_reward_max i) as Hpre.
  pose proof (reaching_reward_bounds i) as Hr.
  pose proof (pre_insertion_reward_bounds i) as Hp.
  pose proof (insertion_reward_bounds i) as Hi.
  unfold staged_reward, grasp_term, pre_insertion_term, insertion_term.
  split.
  - intros H. destruct (is_grasping i); cbn [andb b2r] in H; [|lra].
    destruct (pre_inserted i); cbn [b2r] in H; [|lra].
    assert (Hp3 : pre_insertion_reward i = 3) by lra.
    apply Hpre in Hp3. repeat split; try tauto; lra.
  - intros (Hg & Hreach & Hh & Hb & Hins).
    assert (Hp3 : pre_insertion_reward i = 3) by (apply Hpre; tauto).
    assert (Hpi : pre_inserted i = true).
    { unfold pre_inserted. rewrite Hh, Hb.
      apply andb_true_iff; split; apply Rltb_true_iff; lra. }
    rewrite Hg, Hpi. cbn [andb b2r]. lra.
Qed.

Lemma staged_reward_maximal_iff_witness :
  staged_reward (example_instance (mkV 0 0 0) false) <> 10.
Proof.
  intros H.
  apply (staged_reward_maximal_iff (example_instance (mkV 0 0 0) false)) in H.
  destruct H as [H _]. discriminate H.
Defined.

(** ** The goal pose *)

Lemma pose_inv_self_p (a : Pose.t) :
  Pose.p (Pose.inv a ∘ a)%pose = mkV 0 0 0.
Proof. destruct a as [[x y z] [w i j k]]. pose_cbv. f_equal; ring. Qed.

Lemma pose_inv_self_q (a : Pose.t) :
  Pose.q (Pose.inv a ∘ a)%pose = mkQ (qnorm2 (Pose.q a)) 0 0 0.
Proof. destruct a as [[x y z] [w i j k]]. pose_cbv. f_equal; ring. Qed.

Lemma pose_mul_inv_translation (a : Pose.t) (v : vec3) :
  (a ∘ Pose.inv (Pose.create_from_p v) ∘ Pose.create_from_p v)%pose = a.
Proof.
  destruct a as [[x y z] [w i j k]], v as [vx0 vy0 vz0]. pose_cbv.
  f_equal; f_equal; ring.
Qed.

Lemma pose_inv_self_x_axis (g : Pose.t) (l : R) :
  vy (Pose.p (Pose.inv g ∘ (g ∘ Pose.create_from_p (mkV l 0 0)))%pose) = 0 /\
  vz (Pose.p (Pose.inv g ∘ (g ∘ Pose.create_from_p (mkV l 0 0)))%pose) = 0.
Proof. destruct g as [[x y z] [w i j k]]. pose_cbv. split; ring. Qed.

(** X8: the derived frames of a loaded geometry keep the orientation of
    their actor.  The hole frame is the box frame moved to the hole centre
    [(0, c_y, c_z)], the head frame is the peg frame moved by
    [(half_length, 0, 0)], and the goal frame is the box frame moved to
    [(-half_length, c_y, c_z)]: the hole centre, backed off by the half
    length of the peg along the hole axis. *)
Theorem derived_frames_of_loaded_geometry (i : Instance) (s : GeometrySample) :
  geometry i = load_row s ->
  let c := centers s in
  Pose.q (box_hole_pose i) = Pose.q (box i) /\
  Pose.p (box_hole_pose i) = transform (box i) (mkV 0 (fst c) (snd c)) /\
  Pose.q (peg_head_pose i) = Pose.q (peg i) /\
  Pose.p (peg_head_pose i) = transform (peg i) (mkV (sample_length s) 0 0) /\
  Pose.q (goal_pose i) = Pose.q (box i) /\
  Pose.p (goal_pose i)
  = transform (box i) (mkV (- sample_length s) (fst c) (snd c)).
Proof.
  intros Hg c. unfold box_hole_pose, peg_head_pose, goal_pose. rewrite Hg.
  cbn [load_row box_hole_offsets peg_head_offsets]. fold c.
  destruct (box i) as [[bx b_y bz] [bw bi bj bk]],
    (peg i) as [[px p_y pz] [pw pi pj pk]].
  cbv [transform]. pose_cbv.
  repeat split; f_equal; ring.
Qed.

Lemma derived_frames_of_loaded_geometry_witness :
  Pose.q (goal_pose (example_instance (mkV 0 0 0) true)) = qid.
Proof.
  apply (derived_frames_of_loaded_geometry
           (example_instance (mkV 0 0 0) true)
           (mkSample 0.085 0.015 (0, 0)) eq_refl).
Defined.

(** X9: the goal pose does what it is for.  With the peg at the goal pose of
    a loaded geometry, the head frame is the hole frame, the head is at the
    origin of the hole frame, the row succeeds, the peg counts as
    pre-inserted, and the alignment and insertion rewards are at their
    maxima 3 and 5. *)
Theorem peg_at_goal_is_inserted (i : Instance) (s : GeometrySample) :
  geometry i = load_row s -> 0 <= sample_radius s ->
  let j := set_peg_pose (goal_pose i) i in
  peg_head_pose j = box_hole_pose j /\
  has_peg_inserted j = (true, mkV 0 0 0) /\
  pre_inserted j = true /\
  pre_insertion_reward j = 3 /\
  insertion_reward j = 5.
Proof.
  intros Hg Hr j.
  assert (Hhead : peg_head_pose j = box_hole_pose j).
  { unfold j, peg_head_pose, box_hole_pose, goal_pose, set_peg_pose.
    cbn [geometry peg box]. rewrite Hg.
    cbn [load_row peg_head_offsets box_hole_offsets].
    apply pose_mul_inv_translation. }
  assert (Hpos : snd (has_peg_inserted j) = mkV 0 0 0).
  { cbn [has_peg_inserted snd]. rewrite Hhead. apply pose_inv_self_p. }
  assert (Hh : peg_head_wrt_goal_yz_dist j = 0).
  { assert (Hph : peg_head_pose j
                  = (goal_pose i
                     ∘ Pose.create_from_p (mkV (sample_length s) 0 0))%pose).
    { unfold peg_head_pose, j, set_peg_pose. cbn [geometry peg].
      rewrite Hg. reflexivity. }
    unfold peg_head_wrt_goal_yz_dist. rewrite Hph.
    change (goal_pose j) with (goal_pose i).
    apply norm_yz_zero; apply pose_inv_self_x_axis. }
  assert (Hb : peg_wrt_goal_yz_dist j = 0).
  { unfold peg_wrt_goal_yz_dist.
    replace (peg j) with (goal_pose j) by reflexivity.
    rewrite pose_inv_self_p. apply norm_yz_zero; reflexivity. }
  split; [exact Hhead|]. split; [|split; [|split]].
  - rewrite (surjective_pairing (has_peg_inserted j)), Hpos. f_equal.
    apply has_peg_inserted_iff. cbn [has_peg_inserted snd] in Hpos.
    rewrite Hpos. unfold success_spec. cbn [vx vy vz].
    replace (box_hole_radii (geometry j)) with (sample_radius s + _clearance)
      by (unfold j, set_peg_pose; cbn [geometry]; rewrite Hg; reflexivity).
    unfold _clearance. rewrite !Rabs_le_iff. lra.
  - unfold pre_inserted. rewrite Hh, Hb.
    apply andb_true_iff; split; apply Rltb_true_iff; lra.
  - apply pre_insertion_reward_max. now split.
  - apply insertion_reward_max. exact Hpos.
Qed.

Lemma peg_at_goal_is_inserted_witness :
  has_peg_inserted
    (set_peg_pose (goal_pose (example_instance (mkV 0.3 0.1 0) true))
       (example_instance (mkV 0.3 0.1 0) true))
  = (true, mkV 0 0 0).
Proof.
  apply (peg_at_goal_is_inserted (example_instance (mkV 0.3 0.1 0) true)
           (mkSample 0.085 0.015 (0, 0)) eq_refl).
  cbn [sample_radius]. lra.
Defined.

(** ** Success *)

(** X10: success has no upper bound on the insertion depth and is monotone
    in the hole radius.  If a row succeeds, so does any row whose peg head,
    in the hole frame, has the same y and z, an x that is not smaller, and
    whose hole radius is not smaller. *)
Theorem success_is_upward_closed (i j : Instance) :
  let pi := snd (has_peg_inserted i) in
  let pj := snd (has_peg_inserted j) in
  vx pi <= vx pj -> vy pj = vy pi -> vz pj = vz pi ->
  box_hole_radii (geometry i) <= box_hole_radii (geometry j) ->
  fst (has_peg_inserted i) = true -> fst (has_peg_inserted j) = true.
Proof.
  intros pi pj Hx Hy Hz Hr.
  rewrite !has_peg_inserted_iff.
  change (Pose.p (Pose.inv (box_hole_pose i) ∘ peg_head_pose i)%pose) with pi.
  change (Pose.p (Pose.inv (box_hole_pose j) ∘ peg_head_pose j)%pose) with pj.
  unfold success_spec. rewrite Hy, Hz, !Rabs_le_iff. lra.
Qed.

Lemma success_is_upward_closed_witness :
  fst (has_peg_inserted (example_instance (mkV 5 0.01 (-0.01)) true)) = true.
Proof.
  apply (success_is_upward_closed
           (example_instance (mkV 0.0 0.01 (-0.01)) true)
           (example_instance (mkV 5 0.01 (-0.01)) true)).
  - cbn [has_peg_inserted snd].
    rewrite !hole_frame_at_identity by apply example_box_hole_pose.
    rewrite !example_peg_head. cbn [vx]. lra.
  - cbn [has_peg_inserted snd].
    rewrite !hole_frame_at_identity by apply example_box_hole_pose.
    now rewrite !example_peg_head.
  - cbn [has_peg_inserted snd].
    rewrite !hole_frame_at_identity by apply example_box_hole_pose.
    now rewrite !example_peg_head.
  - rewrite !example_hole_radius. lra.
  - apply has_peg_inserted_iff.
    rewrite hole_frame_at_identity by apply example_box_hole_pose.
    rewrite example_peg_head, example_hole_radius.
    unfold success_spec. cbn [vx vy vz]. rewrite !Rabs_le_iff. lra.
Defined.

(** ** Observations *)

Lemma example_success_iff (head : vec3) (g : bool) :
  fst (has_peg_inserted (example_instance head g)) = true <->
  success_spec 0.018 head.
Proof.
  rewrite has_peg_inserted_iff.
  rewrite hole_frame_at_identity by apply example_box_hole_pose.
  now rewrite example_peg_head, example_hole_radius.
Qed.

Lemma some_inj {A : Type} (a b : A) : Some a = Some b -> a = b.
Proof. now intros [=]. Qed.

Lemma raw_pose_inj (a b : Pose.t) : raw_pose a = raw_pose b -> a = b.
Proof.
  destruct a as [[ax ay az] [aw ai aj ak]], b as [[bx b_y bz] [bw bi bj bk]].
  unfold raw_pose; cbn [Pose.p Pose.q vx vy vz qw qx qy qz].
  intros [= -> -> -> -> -> -> ->]. reflexivity.
Qed.

(** X13: in state mode the extra observation decides success.  Two rows with
    loaded geometries and the same state observation have the same result of
    [has_peg_inserted]; the observation then holds the five entries
    [tcp_pose], [peg_pose], [peg_half_size], [box_hole_pose] and
    [box_hole_radius].  Without state mode it holds [tcp_pose] alone, and
    rows with the same observation can differ in success. *)
Theorem state_observation_decides_success (i j : Instance)
    (si sj : GeometrySample) :
  geometry i = load_row si -> geometry j = load_row sj ->
  _get_obs_extra true i = _get_obs_extra true j ->
  has_peg_inserted i = has_peg_inserted j /\
  map fst (_get_obs_extra true i)
  = ["tcp_pose"; "peg_pose"; "peg_half_size"; "box_hole_pose";
     "box_hole_radius"]%string /\
  map fst (_get_obs_extra false i) = ["tcp_pose"%string] /\
  dict_get "box_hole_radius"%string (_get_obs_extra false i) = None /\
  dict_get "box_hole_radius"%string (_get_obs_extra true i)
  = Some [box_hole_radii (geometry i)] /\
  (exists a b, _get_obs_extra false a = _get_obs_extra false b /\
               fst (has_peg_inserted a) <> fst (has_peg_inserted b)).
Proof.
  intros Hi Hj Hobs.
  split; [|split; [reflexivity|split; [reflexivity|split; [reflexivity|split;
    [reflexivity|]]]]].
  - pose proof (f_equal (dict_get "peg_pose"%string) Hobs) as Hpeg.
    pose proof (f_equal (dict_get "peg_half_size"%string) Hobs) as Hx.
    pose proof (f_equal (dict_get "box_hole_pose"%string) Hobs) as Hbh.
    pose proof (f_equal (dict_get "box_hole_radius"%string) Hobs) as Hr.
    cbn -[raw_pose box_hole_pose] in Hpeg, Hx, Hbh, Hr.
    apply some_inj, raw_pose_inj in Hpeg. apply some_inj, raw_pose_inj in Hbh.
    apply some_inj in Hx, Hr. injection Hx as Hx _ _. injection Hr as Hr.
    rewrite Hi, Hj in Hx. cbn [load_row peg_half_sizes vx] in Hx.
    unfold has_peg_inserted, peg_head_pose.
    rewrite Hbh, Hr, Hpeg, Hi, Hj.
    cbn [load_row peg_head_offsets]. rewrite Hx. reflexivity.
  - exists (example_instance (mkV 0.0 0.01 (-0.01)) true),
           (example_instance (mkV (-0.02) 0 0) true).
    split; [reflexivity|].
    assert (Ha : fst (has_peg_inserted
                        (example_instance (mkV 0.0 0.01 (-0.01)) true)) = true).
    { apply example_success_iff. unfold success_spec. cbn [vx vy vz].
      rewrite !Rabs_le_iff. lra. }
    assert (Hb : fst (has_peg_inserted
                        (example_instance (mkV (-0.02) 0 0) true)) <> true).
    { rewrite example_success_iff. unfold success_spec. cbn [vx]. lra. }
    congruence.
Qed.

Lemma state_observation_decides_success_witness :
  has_peg_inserted (example_instance (mkV 0 0.01 0) true)
  = has_peg_inserted (example_instance (mkV 0 0.01 0) false).
Proof.
  apply (state_observation_decides_success
           (example_instance (mkV 0 0.01 0) true)
           (example_instance (mkV 0 0.01 0) false)
           (mkSample 0.085 0.015 (0, 0)) (mkSample 0.085 0.015 (0, 0)));
    reflexivity.
Defined.

(** ** Resting on the table *)

Lemma yaw_keeps_z (a : Pose.t) (v : vec3) :
  yaw_only (Pose.q a) -> vz (transform a v) = vz (Pose.p a) + vz v.
Proof.
  destruct a as [[x y z] [w i j k]], v as [v1 v2 v3].
  unfold yaw_only. cbv [transform]. pose_cbv. intros (Hn & -> & ->).
  transitivity (z + (w * w + 0 * 0 + 0 * 0 + k * k) * v3); [ring|].
  rewrite Hn. ring.
Qed.

(** X14: after [_initialize_episode] the peg and the box rest on the plane
    z = 0.  For a geometry loaded from draws in their ranges and the
    rotations about z that are drawn, every point of the peg's collider is
    at a height between 0 and twice the radius, every point of the box's
    colliders between 0 and twice the half length, and both touch z = 0. *)
Theorem initial_poses_rest_on_table (d : EpisodeDraw) (robot : Pose.t * bool)
    (i : Instance) (s : GeometrySample) :
  geometry i = load_row s -> valid_sample s ->
  yaw_only (peg_quat d) -> yaw_only (box_quat d) ->
  let j := _initialize_episode d robot i in
  (forall pt, in_collision (peg_builder (geometry j)) pt ->
     0 <= vz (transform (peg j) pt) <= 2 * sample_radius s) /\
  (forall pt, in_collision (box_builder (geometry j)) pt ->
     0 <= vz (transform (box j) pt) <= 2 * sample_length s) /\
  (in_collision (peg_builder (geometry j)) (mkV 0 0 (- sample_radius s)) /\
   vz (transform (peg j) (mkV 0 0 (- sample_radius s))) = 0) /\
  (in_collision (box_builder (geometry j)) (mkV 0 0 (- sample_length s)) /\
   vz (transform (box j) (mkV 0 0 (- sample_length s))) = 0).
Proof.
  intros Hg Hv Hpq Hbq j.
  assert (Hgj : geometry j = load_row s) by (rewrite <- Hg; reflexivity).
  assert (Hpz : forall pt, vz (transform (peg j) pt) = sample_radius s + vz pt).
  { intros pt. rewrite yaw_keeps_z by exact Hpq.
    unfold j, _initialize_episode; cbn [peg Pose.create_from_pq Pose.p vz].
    rewrite Hg. reflexivity. }
  assert (Hbz : forall pt, vz (transform (box j) pt) = sample_length s + vz pt).
  { intros pt. rewrite yaw_keeps_z by exact Hbq.
    unfold j, _initialize_episode; cbn [box Pose.create_from_pq Pose.p vz].
    rewrite Hg. reflexivity. }
  pose proof Hv as (Hl & Hr & _).
  destruct (centers_bound s Hv) as [_ Hc1]. rewrite Rabs_le_iff in Hc1.
  rewrite Hgj. cbn [load_row peg_builder box_builder].
  split; [|split; [|split]].
  - intros pt Hin. apply in_collision_peg in Hin.
    destruct Hin as (_ & _ & Hz). rewrite Rabs_le_iff in Hz.
    rewrite Hpz. lra.
  - intros pt Hin.
    apply (load_row_box_is_frame s pt Hv) in Hin.
    destruct Hin as (_ & _ & Hz & _). rewrite Rabs_le_iff in Hz.
    rewrite Hbz. lra.
  - split.
    + apply in_collision_peg. cbn [vx vy vz]. rewrite !Rabs_le_iff. lra.
    + rewrite Hpz. cbn [vz]. ring.
  - split.
    + apply in_collision_walls. cbn [vx vy vz]. unfold _clearance.
      rewrite !Rabs_le_iff. split; [lra|]. right; right; right. lra.
    + rewrite Hbz. cbn [vz]. ring.
Qed.

Lemma initial_poses_rest_on_table_witness :
  vz (transform
        (peg (_initialize_episode (mkDraw (0.5, 1) qid (0, 0.25) qid)
                (Pose.identity, false) (example_instance (mkV 0 0 0) false)))
        (mkV 0 0 (Ropp 0.015))) = 0.
Proof.
  assert (Hv : valid_sample (mkSample 0.085 0.015 (0, 0))).
  { unfold valid_sample;
      cbn [sample_length sample_radius sample_center fst snd]. lra. }
  assert (Hq : yaw_only qid).
  { unfold yaw_only. pose_cbv. repeat split; lra. }
  destruct (initial_poses_rest_on_table (mkDraw (0.5, 1) qid (0, 0.25) qid)
              (Pose.identity, false) (example_instance (mkV 0 0 0) false)
              (mkSample 0.085 0.015 (0, 0)) eq_refl Hv Hq Hq)
    as (_ & _ & [_ H] & _).
  exact H.
Defined.

(** ** Monotonicity of the reaching and alignment rewards *)

Lemma tanh_monotone (x y : R) : x <= y -> tanh x <= tanh y.
Proof.
  intros [H| ->]; [left; now apply tanh_increasing|right; reflexivity].
Qed.

(** X15: getting closer never lowers a reward term.  The reaching reward is
    strictly decreasing in the distance of the tool centre point to the grasp
    target, and the alignment reward is non-increasing in each of the two yz
    distances to the goal, strictly decreasing when both grow. *)
Theorem reaching_and_alignment_monotone (i j : Instance) :
  (gripper_to_peg_dist i < gripper_to_peg_dist j ->
   reaching_reward j < reaching_reward i) /\
  (peg_head_wrt_goal_yz_dist i <= peg_head_wrt_goal_yz_dist j ->
   peg_wrt_goal_yz_dist i <= peg_wrt_goal_yz_dist j ->
   pre_insertion_reward j <= pre_insertion_reward i) /\
  (peg_head_wrt_goal_yz_dist i < peg_head_wrt_goal_yz_dist j ->
   peg_wrt_goal_yz_dist i < peg_wrt_goal_yz_dist j ->
   pre_insertion_reward j < pre_insertion_reward i).
Proof.
  split; [|split].
  - intros H. unfold reaching_reward.
    assert (tanh (4.0 * gripper_to_peg_dist i)
            < tanh (4.0 * gripper_to_peg_dist j))
      by (apply tanh_increasing; lra).
    lra.
  - intros Hh Hb. unfold pre_insertion_reward.
    pose proof (Rle_max_compat_l _ _ (peg_head_wrt_goal_yz_dist i) Hb) as H1.
    pose proof (Rle_max_compat_r _ _ (peg_wrt_goal_yz_dist j) Hh) as H2.
    match goal with
    | |- 3 * (1 - tanh ?a) <= 3 * (1 - tanh ?b) =>
        assert (tanh b <= tanh a) by (apply tanh_monotone; lra)
    end.
    lra.
  - intros Hh Hb. unfold pre_insertion_reward.
    pose proof (Rle_max_compat_l _ _ (peg_head_wrt_goal_yz_dist i)
                  (Rlt_le _ _ Hb)) as H1.
    pose proof (Rle_max_compat_r _ _ (peg_wrt_goal_yz_dist j)
                  (Rlt_le _ _ Hh)) as H2.
    match goal with
    | |- 3 * (1 - tanh ?a) < 3 * (1 - tanh ?b) =>
        assert (tanh b < tanh a) by (apply tanh_increasing; lra)
    end.
    lra.
Qed.

Lemma example_gripper_dist (x : R) (g : bool) :
  gripper_to_peg_dist (example_instance (mkV x 0 0) g)
  = sqrt ((0.145 - x) * (0.145 - x)).
Proof.
  unfold gripper_to_peg_dist, norm3. f_equal. frames_cbv. lra.
Qed.

Lemma reaching_and_alignment_monotone_witness :
  reaching_reward (example_instance (mkV (-0.1) 0 0) true)
  < reaching_reward (example_instance (mkV 0.1 0 0) true).
Proof.
  apply (reaching_and_alignment_monotone
           (example_instance (mkV 0.1 0 0) true)
           (example_instance (mkV (-0.1) 0 0) true)).
  rewrite !example_gripper_dist. apply sqrt_lt_1; lra.
Defined.

(** ** The HDF5 inspection script *)

Section NodeInduction.

Variable P : H5.node -> Prop.
Hypothesis HGroup : forall name members,
    Forall P members -> P (H5.Group name members).
Hypothesis HDataset : forall name shape dtype,
    P (H5.Dataset name shape dtype).
Hypothesis HOther : P H5.Other.

Lemma node_induction : forall nd, P nd.
Proof.
  fix IH 1. intros [name members|name shape dtype|].
  - apply HGroup. induction members as [|m members IHm].
    + constructor.
    + constructor; [apply IH|exact IHm].
  - apply HDataset.
  - apply HOther.
Qed.

End NodeInduction.

Lemma leading_spaces_indent (indent : nat) (s : String.string) :
  H5.leading_spaces (String.append (H5.spaces indent) s)
  = (2 * indent + H5.leading_spaces s)%nat.
Proof.
  induction indent as [|k IH]; [reflexivity|].
  cbn [H5.spaces String.append H5.leading_spaces].
  change (Ascii.eqb " " " ") with true. cbn iota.
  change (String.append (String.append "" (H5.spaces k)) s)
    with (String.append (H5.spaces k) s).
  rewrite IH. lia.
Qed.

Lemma map_flat_map {A B C : Type} (f : B -> C) (g : A -> list B) (l : list A) :
  map f (flat_map g l) = flat_map (fun a => map f (g a)) l.
Proof.
  induction l as [|a l IH]; [reflexivity|].
  cbn [flat_map]. now rewrite map_app, IH.
Qed.

Lemma flat_map_ext_Forall {A B : Type} (f g : A -> list B) (l : list A) :
  Forall (fun a => f a = g a) l -> flat_map f l = flat_map g l.
Proof.
  induction 1 as [|a l Ha _ IH]; [reflexivity|].
  cbn [flat_map]. now rewrite Ha, IH.
Qed.

Lemma length_flat_map_sum {A B : Type} (f : A -> list B) (l : list A) :
  length (flat_map f l) = list_sum (map (fun a => length (f a)) l).
Proof.
  induction l as [|a l IH]; [reflexivity|].
  cbn [flat_map map list_sum]. now rewrite length_app, IH.
Qed.

Lemma print_depths (nd : H5.node) :
  forall indent,
    map H5.leading_spaces (H5.print_h5_structure nd indent)
    = map (fun d => (2 * d)%nat) (H5.depths nd indent).
Proof.
  induction nd as [name members IH|name shape dtype|] using node_induction;
    intros indent.
  - cbn [H5.print_h5_structure H5.depths map].
    rewrite leading_spaces_indent. cbn [H5.leading_spaces String.append].
    f_equal; [cbn; lia|].
    rewrite !map_flat_map. apply flat_map_ext_Forall.
    revert IH. apply Forall_impl. intros m Hm. apply Hm.
  - cbn [H5.print_h5_structure H5.depths map].
    rewrite leading_spaces_indent. cbn. f_equal. lia.
  - reflexivity.
Qed.

Lemma depths_length (nd : H5.node) :
  forall depth, length (H5.depths nd depth) = H5.count nd.
Proof.
  induction nd as [name members IH|name shape dtype|] using node_induction;
    intros depth; [|reflexivity|reflexivity].
  cbn [H5.depths H5.count length]. f_equal.
  rewrite length_flat_map_sum. f_equal.
  apply map_ext_Forall. revert IH. apply Forall_impl. intros m Hm. apply Hm.
Qed.

(** X16: [print_h5_structure] prints one line for every group and every
    dataset of the tree, in pre-order; the line of a node [d] levels below
    the root starts with exactly [2 * (indent + d)] spaces, whatever the
    names are.  An object that is neither a group nor a dataset prints
    nothing and a group without members prints its own line only. *)
Theorem print_h5_structure_lines (nd : H5.node) (indent : nat) :
  length (H5.print_h5_structure nd indent) = H5.count nd /\
  map H5.leading_spaces (H5.print_h5_structure nd indent)
  = map (fun d => (2 * d)%nat) (H5.depths nd indent) /\
  H5.print_h5_structure H5.Other indent = [] /\
  (forall name,
     H5.print_h5_structure (H5.Group name []) indent
     = [String.append (H5.spaces indent) (String.append "📁 " name)]).
Proof.
  split; [|split; [apply print_depths|split; reflexivity]].
  rewrite <- (depths_length nd indent).
  rewrite <- (length_map H5.leading_spaces), print_depths.
  apply length_map.
Qed.

(** ** Powers of two *)




Lemma pow2_neg (e : Z) : powerRZ 2 (- e) = / powerRZ 2 e.
Proof. apply powerRZ_neg'. Qed.




(** ** Rounding to nearest *)












(** ** Numbers of a binary format are dyadic *)




(** ** The stored hole radius *)









